(** * sevdesk_dedup: duplicate detection and batch deletion

    A shallow embedding of [sevdesk-invoicer/sevdesk_dedup/__init__.py]:
    account resolution ([Accounts.get_or_create_account_id]), grouping by
    (date, amount) ([find_duplicate_transactions]), the canonical record and
    the two duplicate rules of [main], the confirmation prompt
    ([ask_for_confirmation]) and the deletion loop.

    Conventions of the embedding.
    - A Python [str] is a [string]: the bytes of its UTF-8 encoding, matched
      as [list ascii].  Where Python reads Unicode ([float] and the class
      [\d] of [re]) the bytes are decoded; the answer to the prompt is
      read with the [lower] and the [strip] of ASCII.
    - [create] (a [datetime]) is a [Z] timestamp; only its order is used.
    - A field of a transaction is [None] for Python's [None], and otherwise
      the text that [str()] gives of its value.  The [UNSET] object of the
      client is such a value: it is not [None] and it is not the class
      [Unset], so it passes the first test of the grouping loop and its text
      goes to the parsers, which refuse it.
    - The identifier of a transaction is an [int]; [tx.id or 'N/A'] shows
      the identifier 0 as N/A.
    - [float(str(tx.amount))] is the correct rounding to binary64 of the
      decimal that the text denotes; [datetime.fromisoformat] is a
      parameter.
    - An exception is a value: a parse gives an [option], a remote call a
      [response], a piece of the script an [outcome].
    - Remote calls are values of a [remote] record; every call a run issues
      is recorded in a trace of events, printing included. *)

From Stdlib Require Import List Bool Arith NArith ZArith QArith Lia Permutation.
From Stdlib Require Import Ascii String.
Import ListNotations.

Set Implicit Arguments.

(** ** Characters *)

Module Chars.

Definition code (c : ascii) : nat := nat_of_ascii c.

Definition is_digit (c : ascii) : bool :=
  (48 <=? code c)%nat && (code c <=? 57)%nat.

Definition is_upper (c : ascii) : bool :=
  (65 <=? code c)%nat && (code c <=? 90)%nat.

(** ASCII white space, as [str.strip] sees it. *)
Definition is_space (c : ascii) : bool :=
  (code c =? 32)%nat
  || ((9 <=? code c)%nat && (code c <=? 13)%nat)
  || ((28 <=? code c)%nat && (code c <=? 31)%nat).

(** White space for C ([Py_ISSPACE]): the space and [\t\n\v\f\r], without
    the separators 28 to 31. *)
Definition is_c_space (c : ascii) : bool :=
  (code c =? 32)%nat || ((9 <=? code c)%nat && (code c <=? 13)%nat).

Definition is_ascii (c : ascii) : bool := (code c <? 128)%nat.

(** [str.lower] on one ASCII character. *)
Definition lower (c : ascii) : ascii :=
  if is_upper c then ascii_of_nat (code c + 32) else c.

Definition digit_val (c : ascii) : Z := Z.of_nat (code c) - 48.

End Chars.

(** ** Unicode

    A Python [str] is a sequence of code points, and a [string] of this
    development is its UTF-8 encoding.  [float] and the class [\d] of a
    [str] pattern read every decimal digit of Unicode (the characters with a
    decimal value, category Nd), and [float] every white space of Unicode.
    The tables are those of Unicode 14.0, which CPython 3.11 carries; a
    later version of Unicode adds runs of digits to [decimal_zeros] and
    changes nothing else here. *)

Module Unicode.

Local Open Scope N_scope.

(** The zeros of the decimal digits: each starts a run of ten characters
    with the values 0 to 9 (ASCII, Arabic-Indic, ..., the digits of the
    segmented displays). *)
Definition decimal_zeros : list N :=
  [
   48; 1632; 1776; 1984; 2406; 2534; 2662; 2790;
   2918; 3046; 3174; 3302; 3430; 3558; 3664; 3792;
   3872; 4160; 4240; 6112; 6160; 6470; 6608; 6784;
   6800; 6992; 7088; 7232; 7248; 42528; 43216; 43264;
   43472; 43504; 43600; 44016; 65296; 66720; 68912; 69734;
   69872; 69942; 70096; 70384; 70736; 70864; 71248; 71360;
   71472; 71904; 72016; 72784; 73040; 73120; 92768; 92864;
   93008; 120782; 120792; 120802; 120812; 120822; 123200; 123632;
   125264; 130032].

(** [Py_UNICODE_TODECIMAL]: the value of a decimal digit. *)
Definition decimal_value (cp : N) : option N :=
  match find (fun z => (z <=? cp) && (cp <? z + 10)) decimal_zeros with
  | Some z => Some (cp - z)
  | None => None
  end.

(** [Py_UNICODE_ISDECIMAL]. *)
Definition is_decimal (cp : N) : bool :=
  match decimal_value cp with Some _ => true | None => false end.

(** All the decimal digits. *)
Definition decimals : list N :=
  flat_map (fun z => map (fun k => z + N.of_nat k) (seq 0 10)) decimal_zeros.

(** [Py_UNICODE_ISSPACE]. *)
Definition is_space (cp : N) : bool :=
  existsb (fun r => (fst r <=? cp) && (cp <=? snd r))
    [(9, 13); (28, 32); (133, 133); (160, 160); (5760, 5760); (8192, 8202);
     (8232, 8233); (8239, 8239); (8287, 8287); (12288, 12288)].

Definition byte (n : N) : ascii := ascii_of_N n.

(** The UTF-8 encoding of a code point. *)
Definition encode (cp : N) : list ascii :=
  if cp <? 128 then [byte cp]
  else if cp <? 2048 then [byte (192 + cp / 64); byte (128 + cp mod 64)]
  else if cp <? 65536 then
    [byte (224 + cp / 4096); byte (128 + (cp / 64) mod 64);
     byte (128 + cp mod 64)]
  else
    [byte (240 + cp / 262144); byte (128 + (cp / 4096) mod 64);
     byte (128 + (cp / 64) mod 64); byte (128 + cp mod 64)].

(** A continuation byte [10xxxxxx]. *)
Definition is_cont (b : ascii) : bool :=
  (128 <=? N_of_ascii b) && (N_of_ascii b <? 192).

Definition low6 (b : ascii) : N := N_of_ascii b mod 64.

(** What stands for bytes that encode no code point. *)
Definition replacement : N := 65533.

(** The code points of a UTF-8 text.  A [str] encodes to well-formed
    UTF-8; a byte that starts no shortest-form sequence is read as
    [replacement]. *)
Fixpoint decode (s : list ascii) : list N :=
  match s with
  | [] => []
  | b :: t =>
      let n := N_of_ascii b in
      if n <? 128 then n :: decode t
      else
        match t with
        | b1 :: t1 =>
            let v2 := (n mod 32) * 64 + low6 b1 in
            if (192 <=? n) && (n <? 224) && is_cont b1 && (128 <=? v2)
            then v2 :: decode t1
            else
              match t1 with
              | b2 :: t2 =>
                  let v3 := (n mod 16) * 4096 + low6 b1 * 64 + low6 b2 in
                  if (224 <=? n) && (n <? 240) && is_cont b1 && is_cont b2
                     && (2048 <=? v3)
                  then v3 :: decode t2
                  else
                    match t2 with
                    | b3 :: t3 =>
                        let v4 := (n mod 8) * 262144 + low6 b1 * 4096
                                  + low6 b2 * 64 + low6 b3 in
                        if (240 <=? n) && (n <? 248) && is_cont b1
                           && is_cont b2 && is_cont b3 && (65536 <=? v4)
                        then v4 :: decode t3
                        else replacement :: decode t
                    | [] => replacement :: decode t
                    end
              | [] => replacement :: decode t
              end
        | [] => [replacement]
        end
  end.

End Unicode.

(** ** Regular expressions

    The fragment of Python's [re] syntax that the pattern of [main] uses:
    literals, the classes [\d] and [[A-Z]], concatenation and [+], over the
    bytes of the UTF-8 text.  A literal of the pattern and a letter of
    [[A-Z]] are one byte each; [\d], which in a [str] pattern is every
    decimal digit of Unicode, is the alternation [digit] of their encodings.
    [Void], [Eps], [Alt] and [Star] are there for [digit] and to close the
    syntax under derivatives. *)

Module Re.

Inductive cls := Lit (c : ascii) | Upper.

Definition cls_mem (k : cls) (c : ascii) : bool :=
  match k with
  | Lit d => Ascii.eqb d c
  | Upper => Chars.is_upper c
  end.

Inductive regex :=
| Void
| Eps
| Cls (k : cls)
| Alt (r1 r2 : regex)
| Seq (r1 r2 : regex)
| Star (r : regex)
| Plus (r : regex).

(** The words a regular expression denotes. *)
Inductive matches : regex -> list ascii -> Prop :=
| m_eps : matches Eps []
| m_cls k c : cls_mem k c = true -> matches (Cls k) [c]
| m_alt_l r1 r2 u : matches r1 u -> matches (Alt r1 r2) u
| m_alt_r r1 r2 u : matches r2 u -> matches (Alt r1 r2) u
| m_seq r1 r2 u v : matches r1 u -> matches r2 v -> matches (Seq r1 r2) (u ++ v)
| m_star_nil r : matches (Star r) []
| m_star_app r u v : matches r u -> matches (Star r) v -> matches (Star r) (u ++ v)
| m_plus r u v : matches r u -> matches (Star r) v -> matches (Plus r) (u ++ v).

Fixpoint nullable (r : regex) : bool :=
  match r with
  | Void => false
  | Eps => true
  | Cls _ => false
  | Alt r1 r2 => nullable r1 || nullable r2
  | Seq r1 r2 => nullable r1 && nullable r2
  | Star _ => true
  | Plus r => nullable r
  end.

(** Brzozowski derivative: the words [w] with [c :: w] in [r]. *)
Fixpoint deriv (c : ascii) (r : regex) : regex :=
  match r with
  | Void => Void
  | Eps => Void
  | Cls k => if cls_mem k c then Eps else Void
  | Alt r1 r2 => Alt (deriv c r1) (deriv c r2)
  | Seq r1 r2 =>
      if nullable r1
      then Alt (Seq (deriv c r1) r2) (deriv c r2)
      else Seq (deriv c r1) r2
  | Star r => Seq (deriv c r) (Star r)
  | Plus r => Seq (deriv c r) (Star r)
  end.

(** [re.match]: does some prefix of [s] belong to [r]? *)
Fixpoint match_here (r : regex) (s : list ascii) : bool :=
  nullable r ||
  match s with
  | [] => false
  | c :: t => match_here (deriv c r) t
  end.

(** [re.search], read as a truth value: does some factor of [s] belong to
    [r]? *)
Fixpoint search (r : regex) (s : list ascii) : bool :=
  match_here r s ||
  match s with
  | [] => false
  | _ :: t => search r t
  end.

(** A literal string as a regular expression. *)
Fixpoint lit (s : list ascii) : regex :=
  match s with
  | [] => Eps
  | c :: t => Seq (Cls (Lit c)) (lit t)
  end.

(** One of the expressions [rs]. *)
Fixpoint alt_all (rs : list regex) : regex :=
  match rs with
  | [] => Void
  | r :: t => Alt r (alt_all t)
  end.

(** [\d] of a [str] pattern: one decimal digit of Unicode. *)
Definition digit : regex :=
  alt_all (map (fun cp => lit (Unicode.encode cp)) Unicode.decimals).

End Re.

(** ** Python's [float(str)]

    [float] first brings a text that is not ASCII to ASCII (a white space
    of Unicode becomes a space, a decimal digit of Unicode its ASCII digit,
    and any other character ends the text with a question mark); it then
    strips the white space of C, accepts digit-group underscores, a sign,
    [inf], [infinity] and [nan] in any case, and a decimal literal with an
    optional exponent; the literal is rounded correctly (to nearest, ties to
    even) to a binary64 value.  The exact decimal value is kept as a
    rational, and the rounding is computed from its reduced fraction. *)

Module PyFloat.

Local Open Scope Z_scope.

(** A binary64 value: [Fin neg m e] is [(-1)^neg * m * 2^e], with
    [2^52 <= m < 2^53] and [-1074 <= e <= 971], or [m < 2^52] and
    [e = -1074] (subnormals and zero). *)
Inductive float :=
| Nan
| Inf (neg : bool)
| Fin (neg : bool) (m : Z) (e : Z).

(** Python's [==] on floats: [nan] equals nothing, [-0.0 == 0.0]. *)
Definition float_eqb (x y : float) : bool :=
  match x, y with
  | Inf a, Inf b => Bool.eqb a b
  | Fin a m e, Fin b m' e' =>
      ((m =? 0) && (m' =? 0)) || (Bool.eqb a b && (m =? m') && (e =? e'))
  | _, _ => false
  end.

(** Nearest integer to [n / d] for [0 <= n], [0 < d], ties to even. *)
Definition round_half_even (n d : Z) : Z :=
  let q := n / d in
  let r := n mod d in
  if 2 * r <? d then q
  else if d <? 2 * r then q + 1
  else if Z.even q then q else q + 1.

(** [n / d * 2^(-e)] as a fraction. *)
Definition scaled (n d e : Z) : Z * Z :=
  if 0 <=? e then (n, d * 2 ^ e) else (n * 2 ^ (- e), d).

(** The exponent [e] with [2^52 <= n / d * 2^(-e) < 2^53], for [0 < n], [0 < d]. *)
Definition binade (n d : Z) : Z :=
  let e0 := Z.log2 n - Z.log2 d - 52 in
  let '(a, b) := scaled n d e0 in
  if a <? b * 2 ^ 52 then e0 - 1 else e0.

(** Correct rounding of the fraction [n / d], [0 <= n], [0 < d]. *)
Definition round_fraction (neg : bool) (n d : Z) : float :=
  if n =? 0 then Fin neg 0 (-1074)
  else
    let e := Z.max (binade n d) (-1074) in
    let '(a, b) := scaled n d e in
    let m := round_half_even a b in
    let '(m, e) := if m =? 2 ^ 53 then (2 ^ 52, e + 1) else (m, e) in
    if 971 <? e then Inf neg else Fin neg m e.

(** Correct rounding of a rational; [neg] is the sign that was written,
    which a zero keeps. *)
Definition round (neg : bool) (q : Q) : float :=
  let r := Qred q in
  round_fraction neg (Z.abs (Qnum r)) (Zpos (Qden r)).

(** *** The literal *)

Fixpoint span (p : ascii -> bool) (s : list ascii) : list ascii * list ascii :=
  match s with
  | [] => ([], [])
  | c :: t =>
      if p c then let '(u, v) := span p t in (c :: u, v) else ([], s)
  end.

Fixpoint lstrip (s : list ascii) : list ascii :=
  match s with
  | [] => []
  | c :: t => if Chars.is_space c then lstrip t else s
  end.

(** [str.strip()]. *)
Definition strip (s : list ascii) : list ascii :=
  rev (lstrip (rev (lstrip s))).

(** [_PyUnicode_TransformDecimalAndSpaceToASCII] on the code points of a
    text that is not ASCII: a character below 127 is kept (the separators
    28 to 31 too), a white space above becomes a space and a decimal digit
    its ASCII digit; the first character that is neither is replaced by a
    question mark, and the text ends there. *)
Fixpoint transform (cps : list N) : list ascii :=
  match cps with
  | [] => []
  | cp :: t =>
      if (cp <? 127)%N then ascii_of_N cp :: transform t
      else if Unicode.is_space cp then " "%char :: transform t
      else match Unicode.decimal_value cp with
           | Some d => ascii_of_N (48 + d) :: transform t
           | None => ["?"%char]
           end
  end.

(** The ASCII text that [PyFloat_FromString] parses: an ASCII text is taken
    as it is. *)
Definition to_ascii (s : list ascii) : list ascii :=
  if forallb Chars.is_ascii s then s else transform (Unicode.decode s).

Fixpoint skip_c_space (s : list ascii) : list ascii :=
  match s with
  | [] => []
  | c :: t => if Chars.is_c_space c then skip_c_space t else s
  end.

(** The two loops of [PyFloat_FromString] that skip [Py_ISSPACE] at both
    ends. *)
Definition strip_c_space (s : list ascii) : list ascii :=
  rev (skip_c_space (rev (skip_c_space s))).

(** Underscores are allowed only between two digits; [prev] is the
    character before [s], if any. *)
Fixpoint underscores_ok (prev : option ascii) (s : list ascii) : bool :=
  let after_digit :=
    match prev with Some p => Chars.is_digit p | None => false end in
  match s with
  | [] => negb (match prev with Some p => Ascii.eqb p "_" | None => false end)
  | c :: t =>
      (if Ascii.eqb c "_" then after_digit
       else match prev with
            | Some p => negb (Ascii.eqb p "_") || Chars.is_digit c
            | None => true
            end)
      && underscores_ok (Some c) t
  end.

Definition drop_underscores (s : list ascii) : list ascii :=
  filter (fun c => negb (Ascii.eqb c "_")) s.

Definition parse_sign (s : list ascii) : bool * list ascii :=
  match s with
  | c :: t =>
      if Ascii.eqb c "-" then (true, t)
      else if Ascii.eqb c "+" then (false, t)
      else (false, s)
  | [] => (false, s)
  end.

Definition digits_val (ds : list ascii) : Z :=
  fold_left (fun a c => 10 * a + Chars.digit_val c) ds 0.

Definition is_nil {A} (l : list A) : bool :=
  match l with [] => true | _ => false end.

(** An unsigned decimal literal [digits [. digits] [e [sign] digits]] with at
    least one digit before the exponent: the pair [(m, e)] stands for
    [m * 10^e]. *)
Definition parse_decimal (s : list ascii) : option (Z * Z) :=
  let '(ip, s1) := span Chars.is_digit s in
  let '(fp, s2) :=
    match s1 with
    | c :: t => if Ascii.eqb c "." then span Chars.is_digit t else ([], s1)
    | [] => ([], s1)
    end in
  if is_nil ip && is_nil fp then None
  else
    let m := digits_val (ip ++ fp) in
    let e0 := - Z.of_nat (List.length fp) in
    match s2 with
    | [] => Some (m, e0)
    | c :: t =>
        if Ascii.eqb (Chars.lower c) "e" then
          let '(eneg, t') := parse_sign t in
          let '(ex, rest) := span Chars.is_digit t' in
          if negb (is_nil ex) && is_nil rest
          then Some (m, if eneg then e0 - digits_val ex else e0 + digits_val ex)
          else None
        else None
    end.

(** [m * 10^e] as a rational. *)
Definition decimal_value (neg : bool) (m e : Z) : Q :=
  let q := if 0 <=? e then inject_Z (m * 10 ^ e)
           else Qmake m (Z.to_pos (10 ^ (- e))) in
  if neg then Qopp q else q.

(** What the text of a number denotes: a finite decimal with its written
    sign, an infinity or a [nan]. *)
Inductive literal :=
| LNan
| LInf (neg : bool)
| LDec (neg : bool) (q : Q).

Definition list_eqb (a b : list ascii) : bool :=
  String.eqb (string_of_list_ascii a) (string_of_list_ascii b).

(** The grammar of [float(str)]; [None] is [ValueError]. *)
Definition parse_literal (s : string) : option literal :=
  let t := strip_c_space (to_ascii (list_ascii_of_string s)) in
  if underscores_ok None t then
    let '(neg, body) := parse_sign (drop_underscores t) in
    let lb := map Chars.lower body in
    if list_eqb lb (list_ascii_of_string "inf")
       || list_eqb lb (list_ascii_of_string "infinity")
    then Some (LInf neg)
    else if list_eqb lb (list_ascii_of_string "nan") then Some LNan
    else match parse_decimal body with
         | Some (m, e) => Some (LDec neg (decimal_value false m e))
         | None => None
         end
  else None.

(** [float(s)]. *)
Definition float_of_string (s : string) : option float :=
  match parse_literal s with
  | Some LNan => Some Nan
  | Some (LInf neg) => Some (Inf neg)
  | Some (LDec neg q) => Some (round neg q)
  | None => None
  end.

(** The exact decimal an amount text denotes, when it denotes one. *)
Definition decimal_of_string (s : string) : option Q :=
  match parse_literal s with
  | Some (LDec neg q) => Some (if neg then Qopp q else q)
  | _ => None
  end.

End PyFloat.

(** ** Records of the remote ledger *)

(** A calendar date, the result of [datetime.date()]. *)
Record date := { year : Z; month : Z; day : Z }.

Definition date_eqb (a b : date) : bool :=
  (year a =? year b)%Z && (month a =? month b)%Z && (day a =? day b)%Z.

(** A [CheckAccountTransactionModel], with the fields the script reads.
    [entry_date], [amount] and [paymt_purpose] are [None] for Python's
    [None] and otherwise the text of the value, the [UNSET] object
    included. *)
Module Tx.
Record t := {
  id : Z;
  entry_date : option string;
  amount : option string;
  create : Z;
  paymt_purpose : option string
}.
End Tx.

(** A [CheckAccountResponseModel], with the fields the script reads. *)
Record account := {
  acc_id : option Z;
  acc_name : option string;
  acc_register : bool   (* type == REGISTER *)
}.

(** ** What a run prints and calls *)

Inductive die_reason :=
| LoadFailed
| DryRunNoAccount
| CreateFailed (name : string)
| CreateException (name : string).

Inductive msg :=
| MFetchingAccounts
| MFoundAccounts (n : nat)
| MNoAccounts
| MLooking (name : string)
| MFoundExisting (i : Z)
| MFoundDoubleCheck (i : Z)
| MNotFound (name : string)
| MDryRunWouldCreate
| MCreating (name : string)
| MCreated (i : Z)
| MError (r : die_reason)
| MWorkingWith (i : Z)
| MFetchingTransactions (i : Z)
| MNoMoreTransactions
| MTotalFetched (i : Z) (n : nat)
| MNoTransactions
| MAnalyzing
| MSkipMissing (i : option Z)      (* [tx.id or 'N/A']: [None] is N/A *)
| MSkipUnparsable (i : option Z) (d a : option string)
| MSkipped (n : nat)
| MFoundGroups (n : nat)
| MNoSameDateAmount
| MPotentialHeader
| MRule
| MOriginal (i created : Z) (purpose : option string)
| MOriginalCost (i : Z) (cost : option string) (created : Z) (purpose : option string)
| MDuplicate (i created : Z) (purpose : string)
| MDuplicateCost (i : Z) (cost : option string) (created : Z) (purpose : string)
| MNothingMarked
| MDeletionConfirmation
| MDryRunPlan (n : nat)
| MUserConfirmed
| MAttempting (i : Z)
| MDeleting (i : Z)
| MDeleted (i : Z)
| MDeleteFailed (i : Z)
| MSummary
| MSummaryDeleted (n : nat)
| MSummaryFailed (n : nat)
| MDeclined
| MPleaseAnswer.

Inductive api_call :=
| GetCheckAccounts (name : option string)
| CreateCheckAccount (name currency account_number : string)
| GetTransactions (account offset : Z)
| DeleteTransaction (i : Z).

Inductive event :=
| Out (m : msg)            (* print *)
| Err (m : msg)            (* print(..., file=sys.stderr) *)
| Ask (n : nat)            (* the prompt of input() *)
| Call (c : api_call).

(** ** Grouping and classification *)

Section Dedup.

(** [datetime.datetime.fromisoformat(s).date()]; [None] is [ValueError]. *)
Variable fromisoformat_date : string -> option date.

Definition key : Type := date * PyFloat.float.

(** Equality of dictionary keys [(tx_date, tx_amount)]. *)
Definition key_eqb (a b : key) : bool :=
  date_eqb (fst a) (fst b) && PyFloat.float_eqb (snd a) (snd b).

(** The body of the [try] in [find_duplicate_transactions], up to [key]:
    [Missing] is the branch of the first [if], [Unparsable] the [ValueError]
    of [fromisoformat] or of [float], which the first [except] catches.
    Nothing else in the body raises here, so the last [except] has no
    case.  The first [if] holds for a field that [is None]; [is Unset]
    compares with the class and holds for no field, so that an unset field
    goes on to the parsers with the text of [UNSET] and comes out
    [Unparsable]. *)
Inductive keyed :=
| Missing
| Unparsable
| Keyed (k : key).

Definition tx_key (tx : Tx.t) : keyed :=
  match Tx.entry_date tx, Tx.amount tx with
  | Some d, Some a =>
      match fromisoformat_date d with
      | None => Unparsable
      | Some tx_date =>
          match PyFloat.float_of_string a with
          | None => Unparsable
          | Some tx_amount => Keyed (tx_date, tx_amount)
          end
      end
  | _, _ => Missing
  end.

(** A dictionary from keys to lists, in insertion order. *)
Definition groups : Type := list (key * list Tx.t).

(** [grouped_transactions[key].append(tx)] on a [defaultdict(list)]. *)
Fixpoint append_to (k : key) (tx : Tx.t) (g : groups) : groups :=
  match g with
  | [] => [(k, [tx])]
  | (k', l) :: rest =>
      if key_eqb k' k then (k', l ++ [tx]) :: rest
      else (k', l) :: append_to k tx rest
  end.

Record grouping := {
  grouped_transactions : groups;
  skipped_count : nat;
  grouping_log : list event
}.

(** [tx.id or 'N/A']: an identifier that is falsy, which for an [int] is 0,
    is shown as N/A ([None]). *)
Definition id_or_na (tx : Tx.t) : option Z :=
  if (Tx.id tx =? 0)%Z then None else Some (Tx.id tx).

(** One iteration of [for tx in transactions]. *)
Definition group_step (st : grouping) (tx : Tx.t) : grouping :=
  match tx_key tx with
  | Missing =>
      {| grouped_transactions := grouped_transactions st;
         skipped_count := S (skipped_count st);
         grouping_log := grouping_log st ++ [Err (MSkipMissing (id_or_na tx))] |}
  | Unparsable =>
      {| grouped_transactions := grouped_transactions st;
         skipped_count := S (skipped_count st);
         grouping_log :=
           grouping_log st
           ++ [Err (MSkipUnparsable (id_or_na tx) (Tx.entry_date tx)
                      (Tx.amount tx))] |}
  | Keyed k =>
      {| grouped_transactions := append_to k tx (grouped_transactions st);
         skipped_count := skipped_count st;
         grouping_log := grouping_log st |}
  end.

Definition group_all (transactions : list Tx.t) : grouping :=
  fold_left group_step transactions
    {| grouped_transactions := []; skipped_count := 0;
       grouping_log := [Out MAnalyzing] |}.

Definition more_than_one (e : key * list Tx.t) : bool :=
  (1 <? List.length (snd e))%nat.

(** [find_duplicate_transactions]: the groups with more than one member,
    and what was printed. *)
Definition find_duplicate_transactions (transactions : list Tx.t)
  : groups * list event :=
  let st := group_all transactions in
  let log :=
    if (0 <? skipped_count st)%nat
    then grouping_log st ++ [Out (MSkipped (skipped_count st))]
    else grouping_log st in
  let potential_duplicates := filter more_than_one (grouped_transactions st) in
  (potential_duplicates,
   log ++ [Out (MFoundGroups (List.length potential_duplicates))]).

(** The first loop over [tx_list] in [main]. *)
Definition earlier (earliest_tx : option Tx.t) (tx : Tx.t) : option Tx.t :=
  match earliest_tx with
  | None => Some tx
  | Some e => if (Tx.create tx <? Tx.create e)%Z then Some tx else Some e
  end.

Definition earliest_tx (tx_list : list Tx.t) : option Tx.t :=
  fold_left earlier tx_list None.

(** [r"Card transaction of \d+\.\d+ \([A-Z]+\)"]. *)
Definition pattern : Re.regex :=
  Re.Seq (Re.lit (list_ascii_of_string "Card transaction of "))
  (Re.Seq (Re.Plus Re.digit)
  (Re.Seq (Re.Cls (Re.Lit "."))
  (Re.Seq (Re.Plus Re.digit)
  (Re.Seq (Re.lit (list_ascii_of_string " ("))
  (Re.Seq (Re.Plus (Re.Cls Re.Upper))
          (Re.Cls (Re.Lit ")"))))))).

(** [str(tx.paymt_purpose)]. *)
Definition purpose_str (tx : Tx.t) : string :=
  match Tx.paymt_purpose tx with
  | Some s => s
  | None => "None"
  end.

(** [re.search(pattern, purpose_str)]. *)
Definition card_rule (tx : Tx.t) : bool :=
  Re.search pattern (list_ascii_of_string (purpose_str tx)).

Definition option_string_eqb (a b : option string) : bool :=
  match a, b with
  | Some x, Some y => String.eqb x y
  | None, None => true
  | _, _ => false
  end.

(** [tx.paymt_purpose == earliest_tx.paymt_purpose]. *)
Definition purpose_rule (tx earliest : Tx.t) : bool :=
  option_string_eqb (Tx.paymt_purpose tx) (Tx.paymt_purpose earliest).

Record analysis := {
  transactions_to_delete_ids : list Z;
  specific_duplicates_found : nat;
  analysis_log : list event
}.

(** One iteration of the second loop over [tx_list]. *)
Definition classify_step (earliest : Tx.t) (st : analysis) (tx : Tx.t)
  : analysis :=
  if (Tx.create tx >? Tx.create earliest)%Z then
    if card_rule tx then
      {| transactions_to_delete_ids := transactions_to_delete_ids st ++ [Tx.id tx];
         specific_duplicates_found := S (specific_duplicates_found st);
         analysis_log :=
           analysis_log st
           ++ [Out MRule;
               Out (MOriginal (Tx.id earliest) (Tx.create earliest)
                      (Tx.paymt_purpose earliest));
               Out (MDuplicate (Tx.id tx) (Tx.create tx) (purpose_str tx))] |}
    else if purpose_rule tx earliest then
      {| transactions_to_delete_ids := transactions_to_delete_ids st ++ [Tx.id tx];
         specific_duplicates_found := S (specific_duplicates_found st);
         analysis_log :=
           analysis_log st
           ++ [Out MRule;
               Out (MOriginalCost (Tx.id earliest) (Tx.amount earliest)
                      (Tx.create earliest) (Tx.paymt_purpose earliest));
               Out (MDuplicateCost (Tx.id tx) (Tx.amount tx) (Tx.create tx)
                      (purpose_str tx))] |}
    else st
  else st.

(** The body of [for (tx_date, tx_amount), tx_list in duplicate_groups.items()]. *)
Definition analyse_group (st : analysis) (g : key * list Tx.t) : analysis :=
  match earliest_tx (snd g) with
  | None => st     (* an empty list: neither loop runs *)
  | Some e => fold_left (classify_step e) (snd g) st
  end.

(** The analysis phase of [main], from [duplicate_groups] on. *)
Definition analyse (duplicate_groups : groups) : analysis :=
  match duplicate_groups with
  | [] =>
      {| transactions_to_delete_ids := []; specific_duplicates_found := 0;
         analysis_log := [Out MNoSameDateAmount] |}
  | _ =>
      fold_left analyse_group duplicate_groups
        {| transactions_to_delete_ids := []; specific_duplicates_found := 0;
           analysis_log := [Out MPotentialHeader] |}
  end.

(** The deletion plan of an input sequence. *)
Definition plan (transactions : list Tx.t) : list Z :=
  transactions_to_delete_ids
    (analyse (fst (find_duplicate_transactions transactions))).

End Dedup.

(** ** The remote service, the console and a run *)

(** What a call of the generated client gives: an exception, a falsy
    response, or a response with its [objects]. *)
Inductive response (A : Type) :=
| Raises
| Nothing
| Objects (a : A).

Arguments Raises {A}.
Arguments Nothing {A}.
Arguments Objects {A} a.

(** The remote ledger, over a type [W] of its states. *)
Record remote (W : Type) := {
  get_check_accounts : W -> option string -> W * response (list account);
  create_check_account :
    W -> string -> string -> string -> W * response account;
  get_transactions : W -> Z -> Z -> W * response (list Tx.t);
  (* [false]: the call raises *)
  delete_check_account_transaction : W -> Z -> W * bool
}.

Record run (W : Type) := {
  world : W;
  trace : list event;
  stdin : list string
}.

(** How a piece of the script ends: it returns, [sys.exit(code)] unwinds
    it, an exception nothing catches unwinds it, or the page loop was cut
    off by the fuel of the model. *)
Inductive outcome (A : Type) :=
| Ret (a : A)
| Exit (code : Z)
| Uncaught
| Unfinished.

Arguments Ret {A} a.
Arguments Exit {A} code.
Arguments Uncaught {A}.
Arguments Unfinished {A}.

Definition M (W A : Type) : Type := run W -> outcome A * run W.

Definition ret {W A} (a : A) : M W A := fun s => (Ret a, s).

Definition bind {W A B} (c : M W A) (k : A -> M W B) : M W B :=
  fun s =>
    match c s with
    | (Ret a, s') => k a s'
    | (Exit code, s') => (Exit code, s')
    | (Uncaught, s') => (Uncaught, s')
    | (Unfinished, s') => (Unfinished, s')
    end.

Notation "x <- c ;; k" := (bind c (fun x => k))
  (at level 61, c at next level, right associativity).
Notation "c ;;; k" := (bind c (fun _ => k))
  (at level 61, right associativity).

Definition emit {W} (e : event) (s : run W) : run W :=
  {| world := world s; trace := trace s ++ [e]; stdin := stdin s |}.

Definition print {W} (m : msg) : M W unit := fun s => (Ret tt, emit (Out m) s).

(** [die]: the message goes to stderr and [sys.exit(1)] unwinds. *)
Definition die {W A} (r : die_reason) : M W A :=
  fun s => (Exit 1, emit (Err (MError r)) s).

(** A remote call: recorded in the trace, then the world moves. *)
Definition call {W A} (c : api_call) (f : W -> W * A) : M W A :=
  fun s =>
    let '(w, a) := f (world s) in
    (Ret a, {| world := w; trace := trace s ++ [Call c]; stdin := stdin s |}).

(** *** Dictionaries *)

Section Dict.
Variables K V : Type.
Variable eqb : K -> K -> bool.

Fixpoint dict_get (k : K) (d : list (K * V)) : option V :=
  match d with
  | [] => None
  | (k', v) :: r => if eqb k' k then Some v else dict_get k r
  end.

Fixpoint dict_set (k : K) (v : V) (d : list (K * V)) : list (K * V) :=
  match d with
  | [] => [(k, v)]
  | (k', v') :: r =>
      if eqb k' k then (k', v) :: r else (k', v') :: dict_set k v r
  end.
End Dict.

(** *** Accounts *)

Module Accounts.

Record t := {
  dry_run : bool;
  account_map : list ((string * string) * Z);
  sevdesk_accounts_cache : list (Z * account);
  sevdesk_accounts_by_name : list (string * account)
}.

Definition key_eqb (a b : string * string) : bool :=
  String.eqb (fst a) (fst b) && String.eqb (snd a) (snd b).

(** The truth value of [acc.id]: an identifier that is there and not 0. *)
Definition truthy_id (a : account) : option Z :=
  match acc_id a with
  | Some i => if (i =? 0)%Z then None else Some i
  | None => None
  end.

(** The truth value of [acc.name]: a name that is there and not empty. *)
Definition truthy_name (a : account) : option string :=
  match acc_name a with
  | Some n => if String.eqb n "" then None else Some n
  | None => None
  end.

Definition set_account_map (self : t) (k : string * string) (i : Z) : t :=
  {| dry_run := dry_run self;
     account_map := dict_set key_eqb k i (account_map self);
     sevdesk_accounts_cache := sevdesk_accounts_cache self;
     sevdesk_accounts_by_name := sevdesk_accounts_by_name self |}.

Definition set_caches (self : t) (i : Z) (name : string) (a : account) : t :=
  {| dry_run := dry_run self;
     account_map := account_map self;
     sevdesk_accounts_cache := dict_set Z.eqb i a (sevdesk_accounts_cache self);
     sevdesk_accounts_by_name :=
       dict_set String.eqb name a (sevdesk_accounts_by_name self) |}.

(** The body of the loop of [_load_existing_accounts]. *)
Definition load_account (self : t) (acc : account) : t :=
  if acc_register acc then self
  else match truthy_id acc, truthy_name acc with
       | Some i, Some n => set_caches self i n acc
       | _, _ => self
       end.

Definition _load_existing_accounts {W} (api : remote W) (self : t) : M W t :=
  print MFetchingAccounts ;;;
  res <- call (GetCheckAccounts None)
           (fun w => get_check_accounts api w None) ;;
  match res with
  | Raises => die LoadFailed
  | Nothing => print MNoAccounts ;;; ret self
  | Objects l =>
      let self' := fold_left load_account l self in
      print (MFoundAccounts (List.length (sevdesk_accounts_cache self'))) ;;;
      ret self'
  end.

(** [Accounts(client, dry_run)]. *)
Definition __init__ {W} (api : remote W) (dry : bool) : M W t :=
  _load_existing_accounts api
    {| dry_run := dry; account_map := [];
       sevdesk_accounts_cache := []; sevdesk_accounts_by_name := [] |}.

Definition _generate_account_name (identifier currency : string) : string :=
  ("Wise (" ++ currency ++ ", " ++ identifier ++ ")")%string.

(** [currency.upper()]. *)
Definition upper_char (c : ascii) : ascii :=
  let n := nat_of_ascii c in
  if (97 <=? n)%nat && (n <=? 122)%nat then ascii_of_nat (n - 32) else c.

Definition upper (s : string) : string :=
  string_of_list_ascii (map upper_char (list_ascii_of_string s)).

(** The loop over the second lookup's objects: the first object with the
    target name, a type other than register and an identifier. *)
Fixpoint double_check (target_name : string) (objs : list account)
  : option (Z * account) :=
  match objs with
  | [] => None
  | obj :: r =>
      match acc_name obj, acc_register obj, truthy_id obj with
      | Some n, false, Some i =>
          if String.eqb n target_name then Some (i, obj)
          else double_check target_name r
      | _, _, _ => double_check target_name r
      end
  end.

Definition create {W} (api : remote W) (self : t)
  (identifier currency target_name : string) : M W (Z * t) :=
  print (MCreating target_name) ;;;
  res <- call (CreateCheckAccount target_name (upper currency) identifier)
           (fun w => create_check_account api w target_name (upper currency)
                       identifier) ;;
  match res with
  | Raises => die (CreateException target_name)
  | Nothing => die (CreateFailed target_name)
  | Objects created_account =>
      match truthy_id created_account with
      | Some i =>
          print (MCreated i) ;;;
          ret (i, set_caches (set_account_map self (identifier, currency) i)
                    i target_name created_account)
      | None => die (CreateFailed target_name)
      end
  end.

Definition get_or_create_account_id {W} (api : remote W) (self : t)
  (identifier currency : string) : M W (Z * t) :=
  let account_key := (identifier, currency) in
  match dict_get key_eqb account_key (account_map self) with
  | Some i => ret (i, self)
  | None =>
      let target_name := _generate_account_name identifier currency in
      print (MLooking target_name) ;;;
      match
        match dict_get String.eqb target_name (sevdesk_accounts_by_name self)
        with
        | Some existing_account => truthy_id existing_account
        | None => None
        end
      with
      | Some i =>
          print (MFoundExisting i) ;;;
          ret (i, set_account_map self account_key i)
      | None =>
          res <- call (GetCheckAccounts (Some target_name))
                   (fun w => get_check_accounts api w (Some target_name)) ;;
          match res with
          | Raises => fun s => (Uncaught, s)
          | _ =>
              match
                match res with
                | Objects l => double_check target_name l
                | _ => None
                end
              with
              | Some (i, obj) =>
                  print (MFoundDoubleCheck i) ;;;
                  ret (i, set_caches (set_account_map self account_key i)
                            i target_name obj)
              | None =>
                  print (MNotFound target_name) ;;;
                  if dry_run self then
                    print MDryRunWouldCreate ;;; die DryRunNoAccount
                  else create api self identifier currency target_name
              end
          end
      end
  end.

End Accounts.

(** ** The script *)

Definition TRANSACTION_FETCH_LIMIT : nat := 100.

(** The [while True] of [get_all_account_transactions]; [fuel] bounds the
    number of pages. *)
Fixpoint fetch_pages {W} (api : remote W) (fuel : nat) (account_id offset : Z)
  (all_transactions : list Tx.t) : M W (list Tx.t) :=
  match fuel with
  | O => fun s => (Unfinished, s)
  | S fuel' =>
      res <- call (GetTransactions account_id offset)
               (fun w => get_transactions api w account_id offset) ;;
      match res with
      | Raises => fun s => (Uncaught, s)
      | Objects ((_ :: _) as objects) =>
          let fetched_count := List.length objects in
          let all_transactions := all_transactions ++ objects in
          if (fetched_count <? TRANSACTION_FETCH_LIMIT)%nat
          then ret all_transactions
          else fetch_pages api fuel' account_id
                 (offset + Z.of_nat fetched_count) all_transactions
      | _ => print MNoMoreTransactions ;;; ret all_transactions
      end
  end.

Definition get_all_account_transactions {W} (api : remote W) (fuel : nat)
  (account_id : Z) : M W (list Tx.t) :=
  print (MFetchingTransactions account_id) ;;;
  all_transactions <- fetch_pages api fuel account_id 0 [] ;;
  print (MTotalFetched account_id (List.length all_transactions)) ;;;
  ret all_transactions.

(** [input(...).lower().strip()]. *)
Definition normalise (line : string) : list ascii :=
  PyFloat.strip (map Chars.lower (list_ascii_of_string line)).

Definition startswith (c : ascii) (s : list ascii) : bool :=
  match s with
  | d :: _ => Ascii.eqb d c
  | [] => false
  end.

(** The loop of [ask_for_confirmation] over the lines still to be read: the
    answer ([Uncaught] is the [EOFError] of [input] at the end of the input),
    the lines left and what was printed. *)
Fixpoint ask_lines (n : nat) (lines : list string)
  : outcome bool * list string * list event :=
  match lines with
  | [] => (Uncaught, [], [Ask n])
  | line :: rest =>
      let response := normalise line in
      if startswith "y" response then (Ret true, rest, [Ask n])
      else if startswith "n" response || PyFloat.is_nil response
      then (Ret false, rest, [Ask n])
      else
        let '(o, rest', evs) := ask_lines n rest in
        (o, rest', Ask n :: Out MPleaseAnswer :: evs)
  end.

Definition ask_for_confirmation {W} (n : nat) : M W bool :=
  fun s =>
    let '(o, rest, evs) := ask_lines n (stdin s) in
    (o, {| world := world s; trace := trace s ++ evs; stdin := rest |}).

Record counts := {
  deleted_count : nat;
  failed_count : nat
}.

(** One iteration of [for tx_id in transactions_to_delete_ids]: the [try]
    around the delete call catches every exception. *)
Definition delete_step {W} (api : remote W) (st : run W * counts) (tx_id : Z)
  : run W * counts :=
  let '(s, c) := st in
  let s1 := emit (Out (MDeleting tx_id)) (emit (Out (MAttempting tx_id)) s) in
  let '(w, ok) := delete_check_account_transaction api (world s1) tx_id in
  let s2 := {| world := w;
               trace := trace s1 ++ [Call (DeleteTransaction tx_id)];
               stdin := stdin s1 |} in
  if ok then
    (emit (Out (MDeleted tx_id)) s2,
     {| deleted_count := S (deleted_count c); failed_count := failed_count c |})
  else
    (emit (Err (MDeleteFailed tx_id)) s2,
     {| deleted_count := deleted_count c; failed_count := S (failed_count c) |}).

Definition delete_all {W} (api : remote W) (ids : list Z) : M W counts :=
  fun s =>
    let '(s', c) :=
      fold_left (delete_step api) ids
        (s, {| deleted_count := 0; failed_count := 0 |}) in
    (Ret c, s').

(** The confirmation and deletion phase of [main]. *)
Definition execution_gate {W} (api : remote W) (dry_run : bool)
  (transactions_to_delete_ids : list Z) : M W unit :=
  match transactions_to_delete_ids with
  | [] => print MNothingMarked
  | _ =>
      print MDeletionConfirmation ;;;
      if dry_run then
        print (MDryRunPlan (List.length transactions_to_delete_ids))
      else
        yes <- ask_for_confirmation (List.length transactions_to_delete_ids) ;;
        if yes : bool then
          print MUserConfirmed ;;;
          c <- delete_all api transactions_to_delete_ids ;;
          print MSummary ;;;
          print (MSummaryDeleted (deleted_count c)) ;;;
          print (MSummaryFailed (failed_count c))
        else print MDeclined
  end.

Definition emit_all {W} (evs : list event) : M W unit :=
  fun s =>
    (Ret tt,
     {| world := world s; trace := trace s ++ evs; stdin := stdin s |}).

Section Main.

Variable fromisoformat_date : string -> option date.
Variable W : Type.
Variable api : remote W.

(** [main] from [find_duplicate_transactions] on. *)
Definition reconcile (dry_run : bool) (transactions : list Tx.t) : M W unit :=
  let '(duplicate_groups, log) :=
    find_duplicate_transactions fromisoformat_date transactions in
  emit_all log ;;;
  let a := analyse duplicate_groups in
  emit_all (analysis_log a) ;;;
  execution_gate api dry_run (transactions_to_delete_ids a).

Record args := {
  args_account : string * string;
  args_dry_run : bool
}.

(** [main].  [SystemExit] from account resolution is caught and raised
    again with its code. *)
Definition main (a : args) (fuel : nat) : M W unit :=
  accounts <- Accounts.__init__ api (args_dry_run a) ;;
  r <- Accounts.get_or_create_account_id api accounts
         (fst (args_account a)) (snd (args_account a)) ;;
  let sevdesk_account_id := fst r in
  print (MWorkingWith sevdesk_account_id) ;;;
  transactions <- get_all_account_transactions api fuel sevdesk_account_id ;;
  match transactions with
  | [] => print MNoTransactions
  | _ => reconcile (args_dry_run a) transactions
  end.

End Main.

(** ** A parser of calendar dates

    [fromisoformat_date] is a parameter of the development.  The examples
    instantiate it with the form [YYYY-MM-DD], which every version of
    [fromisoformat] reads; texts with a time of day are outside this
    instance. *)

Module IsoDate.

Local Open Scope Z_scope.

Definition is_leap (y : Z) : bool :=
  ((y mod 4 =? 0) && negb (y mod 100 =? 0)) || (y mod 400 =? 0).

Definition days_in_month (y m : Z) : Z :=
  if m =? 2 then (if is_leap y then 29 else 28)
  else if (m =? 4) || (m =? 6) || (m =? 9) || (m =? 11) then 30
  else 31.

Definition number (ds : list ascii) : option Z :=
  if forallb Chars.is_digit ds then Some (PyFloat.digits_val ds) else None.

Definition parse (s : string) : option date :=
  match list_ascii_of_string s with
  | [y1; y2; y3; y4; s1; m1; m2; s2; d1; d2] =>
      if Ascii.eqb s1 "-" && Ascii.eqb s2 "-" then
        match number [y1; y2; y3; y4], number [m1; m2], number [d1; d2] with
        | Some y, Some m, Some d =>
            if (1 <=? y) && (1 <=? m) && (m <=? 12)
               && (1 <=? d) && (d <=? days_in_month y m)
            then Some {| year := y; month := m; day := d |}
            else None
        | _, _, _ => None
        end
      else None
  | _ => None
  end.

End IsoDate.

(** ** The statements to be compared with the code *)

Section Shapes.

Local Open Scope list_scope.

Definition text (s : string) : list ascii := list_ascii_of_string s.

(** The text of one or more decimal digits, of ASCII or of any other
    script of Unicode. *)
Definition decimal_digits (w : list ascii) : Prop :=
  exists cps,
    cps <> [] /\ Forall (fun cp => Unicode.is_decimal cp = true) cps
    /\ w = flat_map Unicode.encode cps.

(** A text that contains a card-transaction description followed by a
    decimal amount and, in parentheses, a currency code among [codes]. *)
Definition card_shape (codes : list ascii -> Prop) (s : list ascii) : Prop :=
  exists before whole frac code rest,
    s = before ++ text "Card transaction of " ++ whole ++ text "." ++ frac
        ++ text " (" ++ code ++ text ")" ++ rest
    /\ decimal_digits whole /\ decimal_digits frac
    /\ codes code.

(** One or more upper-case letters of ASCII. *)
Definition upper_code (code : list ascii) : Prop :=
  code <> [] /\ Forall (fun c => Chars.is_upper c = true) code.

(** Exactly three upper-case letters of ASCII. *)
Definition three_letter_code (code : list ascii) : Prop :=
  List.length code = 3%nat /\ Forall (fun c => Chars.is_upper c = true) code.

(** The card pattern with the expression [code] between the parentheses. *)
Definition card_re (code : Re.regex) : Re.regex :=
  Re.Seq (Re.lit (text "Card transaction of "))
  (Re.Seq (Re.Plus Re.digit)
  (Re.Seq (Re.Cls (Re.Lit "."))
  (Re.Seq (Re.Plus Re.digit)
  (Re.Seq (Re.lit (text " ("))
  (Re.Seq code (Re.Cls (Re.Lit ")"))))))).

(** [[A-Z][A-Z][A-Z]]. *)
Definition three_upper : Re.regex :=
  Re.Seq (Re.Cls Re.Upper) (Re.Seq (Re.Cls Re.Upper) (Re.Cls Re.Upper)).

End Shapes.

Section Statements.

Variable fromisoformat_date : string -> option date.

(** [tx] has the key [k], up to the equality of keys. *)
Definition has_key (k : key) (tx : Tx.t) : bool :=
  match tx_key fromisoformat_date tx with
  | Keyed k' => key_eqb k k'
  | _ => false
  end.


(** Keys that are pairwise different. *)
Fixpoint distinct (ks : list key) : Prop :=
  match ks with
  | [] => True
  | k :: r => (forall k', In k' r -> key_eqb k k' = false) /\ distinct r
  end.

(** The state of the grouping after the transactions [p]: the keys are
    pairwise different; a group is the transactions of [p] with its key, in
    the order of [p], or the one transaction of a key that equals nothing
    (a [nan] amount); every transaction with a key has its group. *)
Definition grouped_as (p : list Tx.t) (G : groups) : Prop :=
  distinct (map fst G)
  /\ (forall k l, In (k, l) G ->
        (key_eqb k k = true /\ l = filter (has_key k) p /\ l <> [])
        \/ (key_eqb k k = false
            /\ exists m, l = [m] /\ In m p /\ tx_key fromisoformat_date m = Keyed k))
  /\ (forall tx k', In tx p -> tx_key fromisoformat_date tx = Keyed k' -> key_eqb k' k' = true ->
        exists k l, In (k, l) G /\ key_eqb k k' = true).

End Statements.

(** [m] was created after [e], and one of the two rules holds. *)
Definition classified (e m : Tx.t) : bool :=
  (Tx.create m >? Tx.create e)%Z && (card_rule m || purpose_rule m e).

(** The identifiers one group adds to the plan. *)
Definition group_plan (tx_list : list Tx.t) : list Z :=
  match earliest_tx tx_list with
  | Some e => map Tx.id (filter (classified e) tx_list)
  | None => []
  end.

(** The identifier a printed report line marks for deletion. *)
Definition reported (e : event) : list Z :=
  match e with
  | Out (MDuplicate i _ _) => [i]
  | Out (MDuplicateCost i _ _ _) => [i]
  | _ => []
  end.

Definition is_call (e : event) : bool :=
  match e with Call _ => true | _ => false end.

(** The calls of a trace, in order. *)
Definition calls (tr : list event) : list api_call :=
  flat_map (fun e => match e with Call c => [c] | _ => [] end) tr.

(** No listed account answers to [target_name]. *)
Definition no_match (target_name : string) (l : list account) : Prop :=
  forall a, In a l -> acc_name a = Some target_name ->
    acc_register a = true \/ Accounts.truthy_id a = None.

(** An event that is neither a call nor a report line. *)
Definition quiet (e : event) : Prop := is_call e = false /\ reported e = [].

(** What the listing calls answer: never an exception, and no account that
    answers to [target]. *)
Definition listing_without {W : Type} (api : remote W) (target : string)
  : Prop :=
  forall w name,
    match snd (get_check_accounts api w name) with
    | Raises => False
    | Nothing => True
    | Objects l => no_match target l
    end.

(** ** Further statements *)




(** A call that changes the remote ledger. *)
Definition mutating (c : api_call) : bool :=
  match c with
  | CreateCheckAccount _ _ _ => true
  | DeleteTransaction _ => true
  | _ => false
  end.

(** A piece of the script that adds no mutating call to the trace. *)
Definition keeps {W A : Type} (c : M W A) : Prop :=
  forall s,
    filter mutating (calls (trace (snd (c s))))
    = filter mutating (calls (trace s)).

(** A listed account that answers to [target_name]: it has that name, it is
    not a register and it has an identifier. *)
Definition answers_to (target_name : string) (a : account) : Prop :=
  acc_name a = Some target_name /\ acc_register a = false
  /\ Accounts.truthy_id a <> None.

(** The transactions of all the groups, group after group. *)
Definition members (G : groups) : list Tx.t := flat_map snd G.

(** The lines of a log that went to stderr. *)
Definition errors (e : event) : list event :=
  match e with
  | Err _ => [e]
  | _ => []
  end.

Section GroupingStatements.

Variable fromisoformat_date : string -> option date.

(** The transaction has an entry date and an amount that parse. *)
Definition is_keyed (tx : Tx.t) : bool :=
  match tx_key fromisoformat_date tx with
  | Keyed _ => true
  | _ => false
  end.

(** What the grouping loop writes to stderr for one transaction. *)
Definition skip_line (tx : Tx.t) : list event :=
  match tx_key fromisoformat_date tx with
  | Missing => [Err (MSkipMissing (id_or_na tx))]
  | Unparsable =>
      [Err (MSkipUnparsable (id_or_na tx) (Tx.entry_date tx) (Tx.amount tx))]
  | Keyed _ => []
  end.

(** The groups of the grouping loop, started from the groups [G]. *)
Definition regroup (l : list Tx.t) (G : groups) : groups :=
  fold_left
    (fun G tx =>
       match tx_key fromisoformat_date tx with
       | Keyed k => append_to k tx G
       | _ => G
       end) l G.

(** Every group starts with the transaction whose key it is stored under,
    and its other members have keys equal to that one. *)
Definition headed (G : groups) : Prop :=
  forall k l, In (k, l) G ->
    exists m0 l',
      l = m0 :: l'
      /\ tx_key fromisoformat_date m0 = Keyed k
      /\ forall m, In m l' ->
           exists k', tx_key fromisoformat_date m = Keyed k'
                      /\ key_eqb k k' = true.

End GroupingStatements.

(** ** Sample records *)

Module Sample.

Local Open Scope Z_scope.
Local Open Scope string_scope.

Definition tx (i : Z) (d a : string) (created : Z) (p : string) : Tx.t :=
  {| Tx.id := i; Tx.entry_date := Some d; Tx.amount := Some a;
     Tx.create := created; Tx.paymt_purpose := Some p |}.

Definition card (created : Z) : Tx.t :=
  tx 1 "2024-03-01" "-42.00" created "Card transaction of 42.00 (EUR)".

Definition rent (created : Z) : Tx.t :=
  tx 2 "2024-03-01" "-42.00" created "Rent".

Definition coffee (i created : Z) : Tx.t :=
  tx i "2024-03-01" "-3.50" created "Coffee".

Definition card_us : Tx.t :=
  tx 7 "2024-03-01" "-12.34" 200 "Card transaction of 12.34 (US)".

Definition lunch : Tx.t :=
  tx 6 "2024-03-01" "-12.34" 100 "Lunch".

Definition tenth (i : Z) (a : string) : Tx.t :=
  tx i "2024-03-01" a (100 + i) "Transfer".

Definition no_date : Tx.t :=
  {| Tx.id := 9; Tx.entry_date := None; Tx.amount := Some "5.00";
     Tx.create := 50; Tx.paymt_purpose := Some "Coffee" |}.

Definition day : date := {| year := 2024; month := 3; day := 1 |}.

(** The key of a sample record. *)
Definition key_of (t : Tx.t) : key :=
  match tx_key IsoDate.parse t with
  | Keyed k => k
  | _ => (day, PyFloat.Nan)
  end.

Definition card_first : list Tx.t := [card 100; rent 200].
Definition tied : list Tx.t := [coffee 3 100; coffee 4 100].
Definition coffees : list Tx.t := [coffee 3 100; coffee 4 103].
Definition three_coffees : list Tx.t :=
  [coffee 3 100; coffee 4 100; coffee 5 103].
Definition late_first : list Tx.t :=
  [coffee 4 103; coffee 3 100; coffee 5 100].
Definition close_amounts : list Tx.t :=
  [tenth 1 "0.1"; tenth 2 "0.10000000000000001"].

Definition dry_args : args :=
  {| args_account := ("BE00", "EUR"); args_dry_run := true |}.

(** A ledger whose state is the list of transaction identifiers left, and
    where deleting an identifier of [faulty] raises. *)
Definition ledger (faulty : list Z) (accounts : list account)
  (transactions : list Tx.t) : remote (list Z) :=
  {| get_check_accounts := fun w _ => (w, Objects accounts);
     create_check_account := fun w _ _ _ => (w, Nothing);
     get_transactions := fun w _ _ => (w, Objects transactions);
     delete_check_account_transaction := fun w i =>
       if existsb (Z.eqb i) faulty then (w, false)
       else (filter (fun j => negb (Z.eqb j i)) w, true) |}.

Definition start (w : list Z) (lines : list string) : run (list Z) :=
  {| world := w; trace := []; stdin := lines |}.

Definition wise_account : account :=
  {| acc_id := Some 11; acc_name := Some "Wise (EUR, BE00)";
     acc_register := false |}.

Definition run_args : args :=
  {| args_account := ("BE00", "EUR"); args_dry_run := false |}.

(** A server that lists [accounts], holds the transactions [data] and
    answers them page by page from the offset asked; deleting an identifier
    of [faulty] raises. *)
Definition server (faulty : list Z) (accounts : list account)
  (data : list Tx.t) : remote (list Z) :=
  {| get_check_accounts := fun w _ => (w, Objects accounts);
     create_check_account := fun w _ _ _ => (w, Nothing);
     get_transactions := fun w _ off =>
       (w, Objects (firstn TRANSACTION_FETCH_LIMIT (skipn (Z.to_nat off) data)));
     delete_check_account_transaction := fun w i =>
       if existsb (Z.eqb i) faulty then (w, false)
       else (filter (fun j => negb (Z.eqb j i)) w, true) |}.

(** A server whose every page is the same hundred transactions. *)
Definition endless : remote (list Z) :=
  {| get_check_accounts := fun w _ => (w, Objects [wise_account]);
     create_check_account := fun w _ _ _ => (w, Nothing);
     get_transactions := fun w _ _ =>
       (w, Objects (repeat (coffee 3 100) TRANSACTION_FETCH_LIMIT));
     delete_check_account_transaction := fun w i => (w, true) |}.

(** A server without accounts that creates the account asked for. *)
Definition creating : remote (list Z) :=
  {| get_check_accounts := fun w _ => (w, Objects []);
     create_check_account := fun w _ _ _ => (11 :: w, Objects wise_account);
     get_transactions := fun w _ _ => (w, Objects []);
     delete_check_account_transaction := fun w i => (w, true) |}.

(** A server whose listing of the accounts raises. *)
Definition raising : remote (list Z) :=
  {| get_check_accounts := fun w _ => (w, Raises);
     create_check_account := fun w _ _ _ => (w, Nothing);
     get_transactions := fun w _ _ => (w, Objects []);
     delete_check_account_transaction := fun w i => (w, true) |}.

Definition no_accounts (dry : bool) : Accounts.t :=
  {| Accounts.dry_run := dry; Accounts.account_map := [];
     Accounts.sevdesk_accounts_cache := [];
     Accounts.sevdesk_accounts_by_name := [] |}.

(** The object that the resolution of ("BE00", "EUR") leaves on the server
    that lists [wise_account]. *)
Definition resolved : Accounts.t :=
  Eval vm_compute in
    match fst (Accounts.get_or_create_account_id (server [] [wise_account] [])
                 (no_accounts false) "BE00" "EUR" (start [] [])) with
    | Ret r => snd r
    | _ => no_accounts false
    end.

Definition memo : Tx.t :=
  tx 12 "2024-03-01" "-42.00" 300
    "Ref 7: Card transaction of 42.00 (EUR), thanks".

Definition not_a_number : Tx.t := tx 8 "2024-03-01" "nan" 100 "Transfer".

(** A transaction without identifier whose amount is unset: its amount is
    the text of [str(UNSET)]. *)
Definition unset_amount : Tx.t :=
  tx 0 "2024-03-01" "<sevdesk.client.types.Unset object at 0x7f3a5c1d2e90>"
    100 "Transfer".

(** The unit separator (31) before the digits: white space for
    [str.strip], not for [float]. *)
Definition separator_amount : Tx.t :=
  tx 14 "2024-03-01" (String (ascii_of_nat 31) "42") 100 "Transfer".

(** 42 in Arabic-Indic digits after a no-break space. *)
Definition arabic_amount : Tx.t :=
  tx 15 "2024-03-01"
    (string_of_list_ascii (flat_map Unicode.encode [160; 1636; 1634]%N))
    100 "Transfer".

(** A card purpose whose amount is written in Arabic-Indic digits. *)
Definition card_arabic : Tx.t :=
  tx 13 "2024-03-01" "-12.34" 200
    (string_of_list_ascii
       (text "Card transaction of " ++ flat_map Unicode.encode [1633; 1634]%N
        ++ text "." ++ flat_map Unicode.encode [1635; 1636]%N
        ++ text " (EUR)")).

End Sample.

(** * Properties *)

(** ** The canonical record *)

Section Canonical.

Local Open Scope Z_scope.

Lemma earliest_from (l : list Tx.t) : forall a,
  (fold_left earlier l (Some a) = Some a
   /\ forall m, In m l -> Tx.create a <= Tx.create m)
  \/ (exists pre c post,
        l = pre ++ c :: post
        /\ fold_left earlier l (Some a) = Some c
        /\ Tx.create c < Tx.create a
        /\ (forall m, In m pre -> Tx.create c < Tx.create m)
        /\ (forall m, In m post -> Tx.create c <= Tx.create m)).
Proof.
  induction l as [|x l IH]; intros a.
  - left. split; [reflexivity | intros m []].
  - simpl. destruct (Z.ltb_spec (Tx.create x) (Tx.create a)) as [Hlt|Hge].
    + right. destruct (IH x) as [[Hx Hall]|(pre & c & post & -> & Hf & Hc & Hpre & Hpost)].
      * exists [], x, l. repeat split; auto. intros m [].
      * exists (x :: pre), c, post. repeat split; auto; try lia.
        intros m [<-|Hm]; auto.
    + destruct (IH a) as [[Ha Hall]|(pre & c & post & -> & Hf & Hc & Hpre & Hpost)].
      * left. split; auto. intros m [<-|Hm]; auto.
      * right. exists (x :: pre), c, post. repeat split; auto.
        intros m [<-|Hm]; auto. lia.
Qed.

(** On a list with a member, [earliest_tx] is the first member with the
    least [create]. *)
Lemma earliest_first_minimum (g : list Tx.t) :
  g <> [] ->
  exists pre c post,
    g = pre ++ c :: post
    /\ earliest_tx g = Some c
    /\ (forall m, In m pre -> Tx.create c < Tx.create m)
    /\ (forall m, In m post -> Tx.create c <= Tx.create m).
Proof.
  destruct g as [|x l]; [congruence|]. intros _.
  unfold earliest_tx. simpl.
  destruct (earliest_from l x) as [[Hx Hall]|(pre & c & post & -> & Hf & Hc & Hpre & Hpost)].
  - exists [], x, l. repeat split; auto. intros m [].
  - exists (x :: pre), c, post. repeat split; auto.
    intros m [<-|Hm]; auto.
Qed.

Lemma earliest_in (g : list Tx.t) (c : Tx.t) :
  earliest_tx g = Some c -> In c g.
Proof.
  intros H. destruct g as [|x l]; [discriminate|].
  destruct (earliest_first_minimum (g := x :: l)) as (pre & c' & post & Hg & Hc & _);
    [discriminate|].
  rewrite Hg in *. rewrite Hc in H. injection H as <-.
  apply in_or_app. right. left. reflexivity.
Qed.

End Canonical.

(** ** The classifier and the plan of a group *)

Section Classifier.

Lemma classify_step_ids (e : Tx.t) (st : analysis) (m : Tx.t) :
  transactions_to_delete_ids (classify_step e st m)
  = transactions_to_delete_ids st ++ (if classified e m then [Tx.id m] else []).
Proof.
  unfold classify_step, classified.
  destruct (Tx.create m >? Tx.create e)%Z; simpl.
  - destruct (card_rule m); simpl; [reflexivity|].
    destruct (purpose_rule m e); simpl; [reflexivity|].
    now rewrite app_nil_r.
  - now rewrite app_nil_r.
Qed.

Lemma classify_fold_ids (e : Tx.t) (l : list Tx.t) : forall st,
  transactions_to_delete_ids (fold_left (classify_step e) l st)
  = transactions_to_delete_ids st ++ map Tx.id (filter (classified e) l).
Proof.
  induction l as [|m l IH]; intros st; simpl.
  - now rewrite app_nil_r.
  - rewrite IH, classify_step_ids.
    destruct (classified e m); simpl.
    + now rewrite <- app_assoc.
    + now rewrite app_nil_r.
Qed.

Lemma analyse_group_ids (st : analysis) (g : key * list Tx.t) :
  transactions_to_delete_ids (analyse_group st g)
  = transactions_to_delete_ids st ++ group_plan (snd g).
Proof.
  unfold analyse_group, group_plan.
  destruct (earliest_tx (snd g)) as [e|].
  - apply classify_fold_ids.
  - now rewrite app_nil_r.
Qed.

Lemma analyse_fold_ids (G : groups) : forall st,
  transactions_to_delete_ids (fold_left analyse_group G st)
  = transactions_to_delete_ids st ++ flat_map (fun g => group_plan (snd g)) G.
Proof.
  induction G as [|g G IH]; intros st; simpl.
  - now rewrite app_nil_r.
  - rewrite IH, analyse_group_ids. now rewrite <- app_assoc.
Qed.

(** The plan is the concatenation, in the order of the groups, of what each
    group adds. *)
Lemma analyse_ids (G : groups) :
  transactions_to_delete_ids (analyse G)
  = flat_map (fun g => group_plan (snd g)) G.
Proof.
  destruct G as [|g G]; [reflexivity|].
  unfold analyse. now rewrite analyse_fold_ids.
Qed.

(** Every identifier of the plan has its report line, and conversely. *)
Lemma classify_step_reported (e : Tx.t) (st : analysis) (m : Tx.t) :
  flat_map reported (analysis_log (classify_step e st m))
  = flat_map reported (analysis_log st)
    ++ (if classified e m then [Tx.id m] else []).
Proof.
  unfold classify_step, classified.
  destruct (Tx.create m >? Tx.create e)%Z; simpl.
  - destruct (card_rule m); simpl.
    + now rewrite flat_map_app.
    + destruct (purpose_rule m e); simpl.
      * now rewrite flat_map_app.
      * now rewrite app_nil_r.
  - now rewrite app_nil_r.
Qed.

Lemma classify_fold_reported (e : Tx.t) (l : list Tx.t) : forall st,
  flat_map reported (analysis_log st) = transactions_to_delete_ids st ->
  flat_map reported (analysis_log (fold_left (classify_step e) l st))
  = transactions_to_delete_ids (fold_left (classify_step e) l st).
Proof.
  induction l as [|m l IH]; intros st H; simpl; [exact H|].
  apply IH. now rewrite classify_step_reported, classify_step_ids, H.
Qed.

Lemma analyse_fold_reported (G : groups) : forall st,
  flat_map reported (analysis_log st) = transactions_to_delete_ids st ->
  flat_map reported (analysis_log (fold_left analyse_group G st))
  = transactions_to_delete_ids (fold_left analyse_group G st).
Proof.
  induction G as [|g G IH]; intros st H; simpl; [exact H|].
  apply IH. unfold analyse_group.
  destruct (earliest_tx (snd g)); [|exact H].
  now apply classify_fold_reported.
Qed.

Lemma analyse_reported (G : groups) :
  flat_map reported (analysis_log (analyse G))
  = transactions_to_delete_ids (analyse G).
Proof.
  destruct G as [|g G]; [reflexivity|].
  unfold analyse. now apply analyse_fold_reported.
Qed.

Lemma classify_step_no_call (e : Tx.t) (st : analysis) (m : Tx.t) :
  calls (analysis_log (classify_step e st m)) = calls (analysis_log st).
Proof.
  unfold classify_step, calls.
  destruct (Tx.create m >? Tx.create e)%Z; [|reflexivity].
  destruct (card_rule m); simpl.
  - rewrite flat_map_app. simpl. now rewrite app_nil_r.
  - destruct (purpose_rule m e); simpl; [|reflexivity].
    rewrite flat_map_app. simpl. now rewrite app_nil_r.
Qed.

Lemma analyse_no_call (G : groups) : calls (analysis_log (analyse G)) = [].
Proof.
  assert (Hc : forall l e st, calls (analysis_log (fold_left (classify_step e) l st))
                              = calls (analysis_log st)).
  { induction l as [|m l IH]; intros e st; simpl; [reflexivity|].
    now rewrite IH, classify_step_no_call. }
  assert (Hg : forall G st, calls (analysis_log (fold_left analyse_group G st))
                            = calls (analysis_log st)).
  { clear G. induction G as [|g G IH]; intros st; simpl; [reflexivity|].
    rewrite IH. unfold analyse_group.
    destruct (earliest_tx (snd g)); [apply Hc | reflexivity]. }
  destruct G as [|g G']; [reflexivity|].
  unfold analyse. now rewrite Hg.
Qed.

End Classifier.

(** ** Keys *)

Section Keys.

Local Open Scope Z_scope.

Lemma date_eqb_eq (a b : date) : date_eqb a b = true <-> a = b.
Proof.
  unfold date_eqb. destruct a as [y m d], b as [y' m' d']; simpl.
  rewrite !andb_true_iff, !Z.eqb_eq. split.
  - intros [[-> ->] ->]. reflexivity.
  - intros H. injection H as -> -> ->. auto.
Qed.

Lemma bool_eqb_eq (a b : bool) : Bool.eqb a b = true <-> a = b.
Proof. destruct a, b; simpl; split; congruence. Qed.

Lemma float_eqb_sym (x y : PyFloat.float) :
  PyFloat.float_eqb x y = PyFloat.float_eqb y x.
Proof.
  destruct x as [|a|a m e], y as [|b|b m' e']; simpl; try reflexivity.
  - destruct a, b; reflexivity.
  - rewrite (andb_comm (m =? 0)), (Z.eqb_sym m m'), (Z.eqb_sym e e').
    destruct a, b; reflexivity.
Qed.

Lemma float_eqb_trans (x y z : PyFloat.float) :
  PyFloat.float_eqb x y = true -> PyFloat.float_eqb y z = true ->
  PyFloat.float_eqb x z = true.
Proof.
  destruct x as [|a|a m e], y as [|b|b m' e'], z as [|c|c m'' e''];
    simpl; try discriminate.
  - rewrite !bool_eqb_eq. congruence.
  - rewrite !orb_true_iff, !andb_true_iff, !bool_eqb_eq, !Z.eqb_eq.
    intros [[H1 H2]|[[H1 H2] H3]] [[H4 H5]|[[H4 H5] H6]]; subst; auto.
Qed.

Lemma key_eqb_sym (a b : key) : key_eqb a b = key_eqb b a.
Proof.
  unfold key_eqb. rewrite float_eqb_sym. f_equal.
  destruct (date_eqb (fst a) (fst b)) eqn:E.
  - apply date_eqb_eq in E. symmetry. apply date_eqb_eq. auto.
  - destruct (date_eqb (fst b) (fst a)) eqn:E'; [|reflexivity].
    apply date_eqb_eq in E'. symmetry in E'. apply date_eqb_eq in E'. congruence.
Qed.

Lemma key_eqb_trans (a b c : key) :
  key_eqb a b = true -> key_eqb b c = true -> key_eqb a c = true.
Proof.
  unfold key_eqb. rewrite !andb_true_iff, !date_eqb_eq.
  intros [H1 H2] [H3 H4]. split; [congruence|].
  eapply float_eqb_trans; eauto.
Qed.

Lemma key_eqb_left_refl (a b : key) : key_eqb a b = true -> key_eqb a a = true.
Proof.
  intros H. eapply key_eqb_trans; [exact H|]. now rewrite key_eqb_sym.
Qed.

Lemma distinct_app (a b : list key) :
  distinct (a ++ b) <->
  distinct a /\ distinct b
  /\ (forall x y, In x a -> In y b -> key_eqb x y = false).
Proof.
  induction a as [|k a IH]; simpl.
  - split; [intros H; repeat split; auto; intros x y [] | tauto].
  - rewrite IH. split.
    + intros [H1 (H2 & H3 & H4)]. repeat split; auto.
      * intros k' Hk'. apply H1, in_or_app. auto.
      * intros x y [<-|Hx] Hy; [apply H1, in_or_app|]; auto.
    + intros [[H1 H2] [H3 H4]]. repeat split; auto.
      intros k' Hk'. apply in_app_or in Hk' as [Hk'|Hk']; auto.
Qed.

End Keys.

(** ** Grouping *)

Section Grouping.

Variable fromisoformat_date : string -> option date.

Abbreviation key_of := (tx_key fromisoformat_date).
Abbreviation with_key := (has_key fromisoformat_date).
Abbreviation step := (group_step fromisoformat_date).
Abbreviation grouping_of := (group_all fromisoformat_date).
Abbreviation grouped := (grouped_as fromisoformat_date).

Lemma group_all_snoc (p : list Tx.t) (tx : Tx.t) :
  grouping_of (p ++ [tx]) = step (grouping_of p) tx.
Proof. unfold group_all. now rewrite fold_left_app. Qed.

Lemma groups_snoc (p : list Tx.t) (tx : Tx.t) :
  grouped_transactions (grouping_of (p ++ [tx]))
  = match key_of tx with
    | Keyed k => append_to k tx (grouped_transactions (grouping_of p))
    | _ => grouped_transactions (grouping_of p)
    end.
Proof.
  rewrite group_all_snoc. unfold group_step.
  destruct (key_of tx); reflexivity.
Qed.

(** What [append_to] does: it extends the first group whose key equals [k],
    or adds a group at the end. *)
Lemma append_to_spec (k : key) (tx : Tx.t) (G : groups) :
  (exists G1 k0 l0 G2,
      G = G1 ++ (k0, l0) :: G2
      /\ key_eqb k0 k = true
      /\ append_to k tx G = G1 ++ (k0, l0 ++ [tx]) :: G2)
  \/ ((forall k' l', In (k', l') G -> key_eqb k' k = false)
      /\ append_to k tx G = G ++ [(k, [tx])]).
Proof.
  induction G as [|[k' l'] G IH]; simpl.
  - right. split; [intros ? ? []|reflexivity].
  - destruct (key_eqb k' k) eqn:E.
    + left. exists [], k', l', G. auto.
    + destruct IH as [(G1 & k0 & l0 & G2 & -> & Hk & Ha)|[Hn Ha]].
      * left. exists ((k', l') :: G1), k0, l0, G2. rewrite Ha. auto.
      * right. rewrite Ha. split; [|reflexivity].
        intros k'' l'' [H|H]; [injection H as <- <-; exact E|eauto].
Qed.

Lemma filter_snoc (f : Tx.t -> bool) (p : list Tx.t) (tx : Tx.t) :
  filter f (p ++ [tx]) = filter f p ++ (if f tx then [tx] else []).
Proof. rewrite filter_app. reflexivity. Qed.

Lemma filter_none (f : Tx.t -> bool) (p : list Tx.t) :
  (forall m, In m p -> f m = false) -> filter f p = [].
Proof.
  induction p as [|x p IH]; intros H; simpl; [reflexivity|].
  rewrite (H x (or_introl eq_refl)). apply IH. intros m Hm. apply H. now right.
Qed.

Lemma grouped_as_skip (p : list Tx.t) (tx : Tx.t) (G : groups) :
  (forall k, key_of tx <> Keyed k) ->
  grouped p G -> grouped (p ++ [tx]) G.
Proof.
  intros Hno (Hd & Hg & Hc). repeat split; auto.
  - intros k l Hin. destruct (Hg k l Hin) as [(Hk & Hl & Hne)|(Hk & m & Hl & Hm & Hkm)].
    + left. repeat split; auto. rewrite filter_snoc.
      unfold has_key. destruct (key_of tx) eqn:E; try now rewrite app_nil_r.
      now destruct (Hno k0).
    + right. split; auto. exists m. repeat split; auto. apply in_or_app; auto.
  - intros tx' k' Hin Hk' Hr. apply in_app_or in Hin as [Hin|[<-|[]]]; eauto.
    now destruct (Hno k').
Qed.

Lemma has_key_keyed (k k' : key) (tx : Tx.t) :
  key_of tx = Keyed k' -> with_key k tx = key_eqb k k'.
Proof. intros H. unfold has_key. now rewrite H. Qed.

Lemma grouped_as_extend (p : list Tx.t) (tx : Tx.t) (kt : key) (G : groups) :
  key_of tx = Keyed kt ->
  grouped p G -> grouped (p ++ [tx]) (append_to kt tx G).
Proof.
  intros Hkt (Hd & Hg & Hc).
  destruct (append_to_spec kt tx G)
    as [(G1 & k0 & l0 & G2 & -> & Hk0 & ->)|[Hnone ->]].
  - (* the group of [k0] is extended *)
    assert (Hk00 : key_eqb k0 k0 = true) by (eapply key_eqb_left_refl; eauto).
    rewrite map_app in Hd. simpl in Hd.
    apply distinct_app in Hd as (Hd1 & [Hd20 Hd2] & Hd12).
    assert (Hother : forall k l, In (k, l) (G1 ++ G2) -> key_eqb k kt = false).
    { intros k l Hin. destruct (key_eqb k kt) eqn:E; [|reflexivity].
      assert (Hkk0 : key_eqb k k0 = true).
      { eapply key_eqb_trans; [exact E|]. now rewrite key_eqb_sym. }
      apply in_app_or in Hin as [Hin|Hin].
      - rewrite (Hd12 k k0) in Hkk0; [discriminate| |now left].
        now apply (in_map fst) in Hin.
      - rewrite key_eqb_sym, (Hd20 k) in Hkk0; [discriminate|].
        now apply (in_map fst) in Hin. }
    repeat split.
    + rewrite map_app. simpl. apply distinct_app. repeat split; auto.
    + intros k l Hin.
      apply in_app_or in Hin as [Hin|[Hin|Hin]].
      * specialize (Hother k l (in_or_app _ _ _ (or_introl Hin))).
        destruct (Hg k l) as [(Hk & Hl & Hne)|(Hk & m & Hl & Hm & Hkm)];
          [apply in_or_app; now left | |].
        -- left. repeat split; auto. rewrite filter_snoc.
           rewrite (has_key_keyed k tx Hkt), Hother. now rewrite app_nil_r.
        -- right. split; auto. exists m. repeat split; auto.
           apply in_or_app; auto.
      * injection Hin as <- <-. left. repeat split; auto.
        -- destruct (Hg k0 l0) as [(_ & Hl & _)|(Hk & _)];
             [apply in_or_app; right; now left | | congruence].
           rewrite filter_snoc, (has_key_keyed k0 tx Hkt), Hk0. now rewrite <- Hl.
        -- intros H. now apply app_eq_nil in H as [_ H].
      * specialize (Hother k l (in_or_app _ _ _ (or_intror Hin))).
        destruct (Hg k l) as [(Hk & Hl & Hne)|(Hk & m & Hl & Hm & Hkm)];
          [apply in_or_app; right; now right | |].
        -- left. repeat split; auto. rewrite filter_snoc.
           rewrite (has_key_keyed k tx Hkt), Hother. now rewrite app_nil_r.
        -- right. split; auto. exists m. repeat split; auto.
           apply in_or_app; auto.
    + intros tx' k' Hin Hk' Hr.
      apply in_app_or in Hin as [Hin|[<-|[]]].
      * destruct (Hc tx' k' Hin Hk' Hr) as (k & l & Hkl & Hkk').
        apply in_app_or in Hkl as [Hkl|[Hkl|Hkl]].
        -- exists k, l. split; auto. apply in_or_app; auto.
        -- injection Hkl as <- <-. exists k0, (l0 ++ [tx]). split; auto.
           apply in_or_app. right. now left.
        -- exists k, l. split; auto. apply in_or_app. right. now right.
      * rewrite Hkt in Hk'. injection Hk' as <-.
        exists k0, (l0 ++ [tx]). split; auto.
        apply in_or_app. right. now left.
  - (* a new group *)
    repeat split.
    + rewrite map_app. simpl. apply distinct_app. repeat split; auto.
      * intros ? [].
      * intros x y Hx [<-|[]].
        apply in_map_iff in Hx as ([k l] & <- & Hin). simpl. eauto.
    + intros k l Hin. apply in_app_or in Hin as [Hin|[Hin|[]]].
      * destruct (Hg k l Hin) as [(Hk & Hl & Hne)|(Hk & m & Hl & Hm & Hkm)].
        -- left. repeat split; auto. rewrite filter_snoc.
           rewrite (has_key_keyed k tx Hkt), (Hnone k l Hin). now rewrite app_nil_r.
        -- right. split; auto. exists m. repeat split; auto.
           apply in_or_app; auto.
      * injection Hin as <- <-.
        destruct (key_eqb kt kt) eqn:Hr.
        -- left. repeat split; [|discriminate].
           rewrite filter_snoc, (has_key_keyed kt tx Hkt), Hr.
           rewrite filter_none; [reflexivity|].
           intros m Hm. unfold has_key.
           destruct (key_of m) as [| |km] eqn:Hkm; try reflexivity.
           destruct (key_eqb kt km) eqn:E; [|reflexivity].
           assert (Hmm : key_eqb km km = true).
           { eapply key_eqb_left_refl. rewrite key_eqb_sym. exact E. }
           destruct (Hc m km Hm Hkm Hmm) as (k & l & Hkl & Hkk).
           rewrite <- (Hnone k l Hkl). symmetry.
           eapply key_eqb_trans; [exact Hkk|]. now rewrite key_eqb_sym.
        -- right. split; auto. exists tx. repeat split; auto.
           apply in_or_app. right. now left.
    + intros tx' k' Hin Hk' Hr.
      apply in_app_or in Hin as [Hin|[<-|[]]].
      * destruct (Hc tx' k' Hin Hk' Hr) as (k & l & Hkl & Hkk').
        exists k, l. split; auto. apply in_or_app; auto.
      * rewrite Hkt in Hk'. injection Hk' as <-.
        exists kt, [tx]. split; auto. apply in_or_app. right. now left.
Qed.


(** The groups of an input are grouped as the invariant says. *)
Lemma group_all_grouped (transactions : list Tx.t) :
  grouped transactions (grouped_transactions (grouping_of transactions)).
Proof.
  induction transactions as [|tx p IH] using rev_ind.
  - repeat split; simpl; auto; intros; contradiction.
  - rewrite groups_snoc. destruct (key_of tx) as [| |k] eqn:E.
    + apply grouped_as_skip; auto. congruence.
    + apply grouped_as_skip; auto. congruence.
    + now apply grouped_as_extend.
Qed.



End Grouping.

(** ** Amounts as decimals and as floats *)

Section Amounts.

Import PyFloat.

Lemma span_forall (p : ascii -> bool) (s : list ascii) :
  Forall (fun c => p c = true) (fst (span p s)).
Proof.
  induction s as [|c t IH]; simpl; [constructor|].
  destruct (p c) eqn:E; [|constructor].
  destruct (span p t) as [u v]. simpl in *. constructor; auto.
Qed.

Lemma digit_val_nonneg (c : ascii) :
  Chars.is_digit c = true -> (0 <= Chars.digit_val c)%Z.
Proof.
  unfold Chars.is_digit, Chars.digit_val. rewrite andb_true_iff, Nat.leb_le.
  intros [H _]. lia.
Qed.

Lemma digits_val_nonneg (ds : list ascii) :
  Forall (fun c => Chars.is_digit c = true) ds -> (0 <= digits_val ds)%Z.
Proof.
  unfold digits_val.
  assert (H : forall acc, (0 <= acc)%Z ->
            Forall (fun c => Chars.is_digit c = true) ds ->
            (0 <= fold_left (fun a c => 10 * a + Chars.digit_val c) ds acc)%Z).
  { induction ds as [|c t IH]; intros acc Hacc H; cbn [fold_left]; [exact Hacc|].
    inversion H as [|c' t' Hc Ht]; subst. apply IH; auto.
    pose proof (digit_val_nonneg _ Hc). lia. }
  apply H. lia.
Qed.

Lemma parse_decimal_nonneg (s : list ascii) (m e : Z) :
  parse_decimal s = Some (m, e) -> (0 <= m)%Z.
Proof.
  unfold parse_decimal.
  pose proof (span_forall Chars.is_digit s) as Hip.
  destruct (span Chars.is_digit s) as [ip s1]. simpl in Hip.
  assert (Hfp : forall fp s2,
            match s1 with
            | c :: t => if Ascii.eqb c "." then span Chars.is_digit t else ([], s1)
            | [] => ([], s1)
            end = (fp, s2) -> Forall (fun c => Chars.is_digit c = true) fp).
  { intros fp s2 H. destruct s1 as [|c t].
    - injection H as <- _. constructor.
    - destruct (Ascii.eqb c ".").
      + pose proof (span_forall Chars.is_digit t) as Ht. rewrite H in Ht. exact Ht.
      + injection H as <- _. constructor. }
  destruct (match s1 with
            | c :: t => if Ascii.eqb c "." then span Chars.is_digit t else ([], s1)
            | [] => ([], s1)
            end) as [fp s2].
  specialize (Hfp fp s2 eq_refl).
  assert (Hm : (0 <= digits_val (ip ++ fp))%Z).
  { apply digits_val_nonneg, Forall_app. auto. }
  destruct (is_nil ip && is_nil fp); [discriminate|].
  destruct s2 as [|c t].
  - intros H. injection H as <- _. exact Hm.
  - destruct (Ascii.eqb (Chars.lower c) "e"); [|discriminate].
    destruct (parse_sign t) as [eneg t'].
    destruct (span Chars.is_digit t') as [ex rest].
    destruct (negb (is_nil ex) && is_nil rest); [|discriminate].
    intros H. injection H as <- _. exact Hm.
Qed.

Lemma decimal_value_nonneg (m e : Z) :
  (0 <= m)%Z -> 0 <= decimal_value false m e.
Proof.
  intros Hm. unfold decimal_value.
  destruct (0 <=? e)%Z eqn:E.
  - apply Z.leb_le in E. unfold Qle, inject_Z. simpl.
    pose proof (Z.pow_nonneg 10 e). nia.
  - unfold Qle. simpl. lia.
Qed.

(** A text that denotes a decimal is read as the correct rounding of that
    decimal. *)
Lemma decimal_then_float (s : string) (q : Q) :
  decimal_of_string s = Some q ->
  exists (neg : bool) (u : Q),
    0 <= u /\ q = (if neg then Qopp u else u)
    /\ float_of_string s = Some (round neg u).
Proof.
  unfold decimal_of_string, float_of_string, parse_literal.
  set (t := strip_c_space (to_ascii (list_ascii_of_string s))).
  destruct (underscores_ok None t); [|discriminate].
  destruct (parse_sign (drop_underscores t)) as [neg body].
  set (lb := map Chars.lower body).
  destruct (list_eqb lb (list_ascii_of_string "inf")
            || list_eqb lb (list_ascii_of_string "infinity")); [discriminate|].
  destruct (list_eqb lb (list_ascii_of_string "nan")); [discriminate|].
  destruct (parse_decimal body) as [[m e]|] eqn:E; [|discriminate].
  intros H. injection H as <-. exists neg, (decimal_value false m e).
  repeat split. apply decimal_value_nonneg. eapply parse_decimal_nonneg; eauto.
Qed.

Lemma round_fraction_eqb_refl (neg : bool) (n d : Z) :
  float_eqb (round_fraction neg n d) (round_fraction neg n d) = true.
Proof.
  unfold round_fraction.
  destruct (n =? 0)%Z.
  - simpl. reflexivity.
  - destruct (scaled n d _) as [a b].
    destruct (round_half_even a b =? 2 ^ 53)%Z;
      destruct (971 <? _)%Z; simpl;
      rewrite ?Z.eqb_refl, ?andb_true_r; destruct neg; simpl;
      rewrite ?orb_true_r; reflexivity.
Qed.

Lemma round_zero (neg : bool) (u : Q) :
  u == 0 -> round neg u = Fin neg 0 (-1074).
Proof.
  intros H. unfold round.
  assert (Hr : Qred u = Qred 0) by now apply Qred_complete.
  rewrite Hr. reflexivity.
Qed.

Lemma round_proper (neg : bool) (u v : Q) : u == v -> round neg u = round neg v.
Proof.
  intros H. unfold round. now rewrite (Qred_complete _ _ H).
Qed.

(** Two texts that denote the same decimal are read as equal floats. *)
Lemma equal_decimals_equal_floats (a1 a2 : string) (q1 q2 : Q) :
  decimal_of_string a1 = Some q1 -> decimal_of_string a2 = Some q2 ->
  q1 == q2 ->
  exists f1 f2,
    float_of_string a1 = Some f1 /\ float_of_string a2 = Some f2
    /\ float_eqb f1 f2 = true.
Proof.
  intros H1 H2 Heq.
  destruct (decimal_then_float _ H1) as (n1 & u1 & Hu1 & -> & Hf1).
  destruct (decimal_then_float _ H2) as (n2 & u2 & Hu2 & -> & Hf2).
  exists (round n1 u1), (round n2 u2). repeat split; auto.
  destruct n1, n2.
  - assert (Hu : u1 == u2).
    { rewrite <- (Qopp_involutive u1), <- (Qopp_involutive u2). now rewrite Heq. }
    rewrite (round_proper _ Hu). apply round_fraction_eqb_refl.
  - assert (Hz1 : u1 == 0).
    { apply Qle_antisym; auto.
      apply Qopp_le_compat in Hu2. rewrite <- Heq in Hu2.
      rewrite Qopp_involutive in Hu2. exact Hu2. }
    assert (Hz2 : u2 == 0) by (rewrite <- Heq, Hz1; reflexivity).
    now rewrite (round_zero _ Hz1), (round_zero _ Hz2).
  - assert (Hz2 : u2 == 0).
    { apply Qle_antisym; auto.
      apply Qopp_le_compat in Hu1. rewrite Heq in Hu1.
      rewrite Qopp_involutive in Hu1. exact Hu1. }
    assert (Hz1 : u1 == 0) by (rewrite Heq, Hz2; reflexivity).
    now rewrite (round_zero _ Hz1), (round_zero _ Hz2).
  - rewrite (round_proper _ Heq). apply round_fraction_eqb_refl.
Qed.

End Amounts.

(** ** Groups, canonical records and the plan of an input *)

Section Reconciliation.

Variable fromisoformat_date : string -> option date.

Abbreviation key_of := (tx_key fromisoformat_date).
Abbreviation with_key := (has_key fromisoformat_date).
Abbreviation grouping_of := (group_all fromisoformat_date).
Abbreviation duplicate_groups :=
  (fun transactions =>
     fst (find_duplicate_transactions fromisoformat_date transactions)).
Abbreviation plan_of := (plan fromisoformat_date).

Local Open Scope Z_scope.

Lemma duplicate_groups_in (transactions : list Tx.t) (k : key) (g : list Tx.t) :
  In (k, g) (duplicate_groups transactions) <->
  In (k, g) (grouped_transactions (grouping_of transactions))
  /\ (2 <= List.length g)%nat.
Proof.
  unfold find_duplicate_transactions. simpl. rewrite filter_In.
  unfold more_than_one. simpl. rewrite Nat.ltb_lt. reflexivity.
Qed.

(** A group with two members or more is the transactions of the input with
    its key, in the order of the input. *)
Lemma duplicate_group_members (transactions : list Tx.t) (k : key)
  (g : list Tx.t) :
  In (k, g) (duplicate_groups transactions) ->
  g = filter (with_key k) transactions /\ (2 <= List.length g)%nat.
Proof.
  intros H. apply duplicate_groups_in in H as [Hin Hlen]. split; auto.
  destruct (group_all_grouped fromisoformat_date transactions) as (_ & Hg & _).
  destruct (Hg k g Hin) as [(_ & Hl & _)|(_ & m & -> & _)]; auto.
  simpl in Hlen. lia.
Qed.

Lemma member_keyed (transactions : list Tx.t) (k : key) (g : list Tx.t)
  (m : Tx.t) :
  In (k, g) (grouped_transactions (grouping_of transactions)) -> In m g ->
  In m transactions /\ exists k', key_of m = Keyed k'.
Proof.
  intros Hin Hm.
  destruct (group_all_grouped fromisoformat_date transactions) as (_ & Hg & _).
  destruct (Hg k g Hin) as [(_ & Hl & _)|(_ & m' & -> & Hm' & Hk)].
  - rewrite Hl in Hm. apply filter_In in Hm as [Hm Hk]. split; auto.
    unfold has_key in Hk. destruct (key_of m) as [| |k']; try discriminate. eauto.
  - destruct Hm as [<-|[]]. eauto.
Qed.




(** The plan of an input, group by group. *)
Lemma plan_by_groups (transactions : list Tx.t) :
  plan_of transactions
  = flat_map (fun g => group_plan (snd g)) (duplicate_groups transactions).
Proof. unfold plan. apply analyse_ids. Qed.

Lemma purpose_rule_card (m e : Tx.t) :
  purpose_rule m e = true -> card_rule m = card_rule e.
Proof.
  unfold purpose_rule, card_rule, purpose_str, option_string_eqb.
  destruct (Tx.paymt_purpose m) as [a|], (Tx.paymt_purpose e) as [b|];
    try discriminate; auto.
  intros H. apply String.eqb_eq in H. now subst.
Qed.


(** C5.  In a group with two members or more, which lists its members in
    the order of the input, the canonical record is the first member with
    the least [create]: the members before it were created strictly later,
    the members after it not earlier. *)
Theorem canonical_is_first_earliest (transactions : list Tx.t) (k : key)
  (g : list Tx.t) :
  In (k, g) (duplicate_groups transactions) ->
  g = filter (with_key k) transactions
  /\ exists pre c post,
       g = pre ++ c :: post
       /\ earliest_tx g = Some c
       /\ (forall m, In m pre -> Tx.create c < Tx.create m)
       /\ (forall m, In m post -> Tx.create c <= Tx.create m).
Proof.
  intros H. destruct (duplicate_group_members _ _ _ H) as [Hg Hlen].
  split; [exact Hg|].
  apply earliest_first_minimum. intros ->. simpl in Hlen. lia.
Qed.

(** C6, for an input in which an identifier stands for one record (two
    entries with the same identifier were created together), as it does
    when identifiers are unique within the account.  An identifier of the
    plan is the identifier of a member of a group with two members or more,
    and it is not the identifier of that group's canonical record. *)
Theorem plan_sound (transactions : list Tx.t) (i : Z) :
  (forall a b, In a transactions -> In b transactions ->
     Tx.id a = Tx.id b -> Tx.create a = Tx.create b) ->
  In i (plan_of transactions) ->
  exists k g c m,
    In (k, g) (duplicate_groups transactions)
    /\ (2 <= List.length g)%nat
    /\ earliest_tx g = Some c
    /\ In m g /\ Tx.id m = i
    /\ Tx.id c <> i.
Proof.
  intros Hnd Hi. rewrite plan_by_groups in Hi.
  apply in_flat_map in Hi as ([k g] & Hg & Hi). simpl in Hi.
  unfold group_plan in Hi. destruct (earliest_tx g) as [c|] eqn:Hc; [|contradiction].
  apply in_map_iff in Hi as (m & Hid & Hm).
  apply filter_In in Hm as [Hm Hcl].
  exists k, g, c, m.
  pose proof (proj1 (duplicate_groups_in _ _ _) Hg) as [Hin Hlen].
  repeat split; auto.
  intros Heq.
  assert (Hmc : Tx.create c = Tx.create m).
  { apply Hnd; try congruence.
    - apply (member_keyed _ _ _ _ Hin (earliest_in _ Hc)).
    - apply (member_keyed _ _ _ _ Hin Hm). }
  unfold classified in Hcl. apply andb_true_iff in Hcl as [Hgt _].
  apply Z.gtb_lt in Hgt. lia.
Qed.

(** C3, as the code has it.  In a group with two members or more, the
    members created strictly later than the canonical record, and only
    they, go through the two rules; the group adds to the plan the
    identifiers of those for which the card rule or the purpose rule holds,
    in the order of the group. *)
Theorem later_members_are_classified (transactions : list Tx.t) (k : key)
  (g : list Tx.t) :
  In (k, g) (duplicate_groups transactions) ->
  exists c,
    earliest_tx g = Some c
    /\ forall st,
         transactions_to_delete_ids (analyse_group st (k, g))
         = transactions_to_delete_ids st
           ++ map Tx.id
                (filter (fun m => (Tx.create m >? Tx.create c)
                                  && (card_rule m || purpose_rule m c)) g).
Proof.
  intros H. destruct (duplicate_group_members _ _ _ H) as [_ Hlen].
  destruct (earliest_first_minimum (g := g)) as (pre & c & post & _ & Hc & _).
  { intros ->. simpl in Hlen. lia. }
  exists c. split; [exact Hc|]. intros st.
  rewrite analyse_group_ids. simpl. unfold group_plan. now rewrite Hc.
Qed.

Lemma in_filter_length_two (f : Tx.t -> bool) (l1 l2 l3 : list Tx.t)
  (t1 t2 : Tx.t) :
  f t1 = true -> f t2 = true ->
  (2 <= List.length (filter f (l1 ++ t1 :: l2 ++ t2 :: l3)))%nat.
Proof.
  intros H1 H2. rewrite filter_app. simpl. rewrite H1, filter_app. simpl.
  rewrite H2. rewrite length_app. simpl. rewrite length_app. simpl. lia.
Qed.

(** Two transactions of the input share a group exactly when their keys are
    equal. *)
Lemma same_group_iff (l1 l2 l3 : list Tx.t) (t1 t2 : Tx.t) (k1 k2 : key) :
  key_of t1 = Keyed k1 -> key_of t2 = Keyed k2 ->
  (exists k g,
      In (k, g) (duplicate_groups (l1 ++ t1 :: l2 ++ t2 :: l3))
      /\ In t1 g /\ In t2 g)
  <-> key_eqb k1 k2 = true.
Proof.
  intros Hk1 Hk2. set (transactions := l1 ++ t1 :: l2 ++ t2 :: l3).
  split.
  - intros (k & g & Hg & H1 & H2).
    destruct (duplicate_group_members _ _ _ Hg) as [-> _].
    apply filter_In in H1 as [_ H1]. apply filter_In in H2 as [_ H2].
    unfold has_key in H1, H2. rewrite Hk1 in H1. rewrite Hk2 in H2.
    eapply key_eqb_trans; [|exact H2]. now rewrite key_eqb_sym.
  - intros Heq.
    destruct (group_all_grouped fromisoformat_date transactions) as (_ & Hg & Hc).
    assert (Hin1 : In t1 transactions).
    { apply in_or_app. right. now left. }
    assert (Hin2 : In t2 transactions).
    { apply in_or_app. right. right. apply in_or_app. right. now left. }
    destruct (Hc t1 k1 Hin1 Hk1 (key_eqb_left_refl _ _ Heq)) as (k & g & Hkg & Hkk1).
    assert (Hkk2 : key_eqb k k2 = true) by (eapply key_eqb_trans; eauto).
    assert (Hf1 : with_key k t1 = true) by (unfold has_key; now rewrite Hk1).
    assert (Hf2 : with_key k t2 = true) by (unfold has_key; now rewrite Hk2).
    destruct (Hg k g Hkg) as [(_ & Hl & _)|(Hk & _)];
      [|rewrite (key_eqb_left_refl _ _ Hkk1) in Hk; discriminate].
    exists k, g. repeat split.
    + apply duplicate_groups_in. split; auto.
      rewrite Hl. now apply in_filter_length_two.
    + rewrite Hl. apply filter_In. auto.
    + rewrite Hl. apply filter_In. auto.
Qed.

(** C2, as the code has it.  The amount of a key is the float that
    [float(str(tx.amount))] gives.  Two transactions of the input with the
    same entry date share a group exactly when those floats are equal; so
    two amounts that denote the same decimal, however written, share a
    group, and so do two different decimals that round to the same float. *)
Theorem amounts_are_compared_as_floats (l1 l2 l3 : list Tx.t) (t1 t2 : Tx.t)
  (d1 d2 a1 a2 : string) (day : date) :
  Tx.entry_date t1 = Some d1 -> Tx.entry_date t2 = Some d2 ->
  fromisoformat_date d1 = Some day -> fromisoformat_date d2 = Some day ->
  Tx.amount t1 = Some a1 -> Tx.amount t2 = Some a2 ->
  let share_a_group :=
    exists k g,
      In (k, g) (duplicate_groups (l1 ++ t1 :: l2 ++ t2 :: l3))
      /\ In t1 g /\ In t2 g in
  (forall q1 q2,
      PyFloat.decimal_of_string a1 = Some q1 ->
      PyFloat.decimal_of_string a2 = Some q2 ->
      (q1 == q2)%Q -> share_a_group)
  /\ (forall f1 f2,
        PyFloat.float_of_string a1 = Some f1 ->
        PyFloat.float_of_string a2 = Some f2 ->
        (share_a_group <-> PyFloat.float_eqb f1 f2 = true)).
Proof.
  intros Hd1 Hd2 Hp1 Hp2 Ha1 Ha2 share_a_group.
  assert (Hfloat : forall f1 f2,
            PyFloat.float_of_string a1 = Some f1 ->
            PyFloat.float_of_string a2 = Some f2 ->
            (share_a_group <-> PyFloat.float_eqb f1 f2 = true)).
  { intros f1 f2 Hf1 Hf2.
    assert (Hk1 : key_of t1 = Keyed (day, f1))
      by (unfold tx_key; now rewrite Hd1, Ha1, Hp1, Hf1).
    assert (Hk2 : key_of t2 = Keyed (day, f2))
      by (unfold tx_key; now rewrite Hd2, Ha2, Hp2, Hf2).
    unfold share_a_group. rewrite (same_group_iff l1 l2 l3 t1 t2 Hk1 Hk2).
    unfold key_eqb. simpl.
    rewrite (proj2 (date_eqb_eq day day) eq_refl). reflexivity. }
  split; [|exact Hfloat].
  intros q1 q2 Hq1 Hq2 Heq.
  destruct (equal_decimals_equal_floats _ _ Hq1 Hq2 Heq) as (f1 & f2 & Hf1 & Hf2 & Hf).
  now apply (Hfloat f1 f2 Hf1 Hf2).
Qed.

(** C1, as the code has it.  Of two transactions with the same key, one
    with a purpose of the card pattern and one without, the card member
    is flagged exactly when it was created strictly later than the other;
    when it is the earlier one, or the two were created together, the plan
    is empty.  The order of the two in the input does not matter. *)
Theorem card_member_flagged_when_later (card other : Tx.t) (kc ko : key) :
  key_of card = Keyed kc -> key_of other = Keyed ko ->
  key_eqb kc ko = true ->
  card_rule card = true -> card_rule other = false ->
  let flagged :=
    if Tx.create other <? Tx.create card then [Tx.id card] else [] in
  plan_of [card; other] = flagged /\ plan_of [other; card] = flagged.
Proof.
  intros Hkc Hko Heq Hcard Hother flagged.
  assert (Heq' : key_eqb ko kc = true) by now rewrite key_eqb_sym.
  assert (Hp1 : purpose_rule other card = false).
  { destruct (purpose_rule other card) eqn:E; [|reflexivity].
    apply purpose_rule_card in E. congruence. }
  assert (Hp2 : purpose_rule card other = false).
  { destruct (purpose_rule card other) eqn:E; [|reflexivity].
    apply purpose_rule_card in E. congruence. }
  assert (Hirr : forall x, (x >? x) = false)
    by (intros x; rewrite Z.gtb_ltb; apply Z.ltb_irrefl).
  unfold flagged. split.
  - rewrite plan_by_groups.
    unfold find_duplicate_transactions, group_all, group_step. simpl.
    rewrite Hkc. simpl. rewrite Hko. simpl. rewrite Heq. simpl.
    unfold group_plan, earliest_tx, classified. simpl.
    destruct (Z.ltb_spec (Tx.create other) (Tx.create card)) as [Hlt|Hge]; simpl.
    + rewrite Hcard, Hirr. simpl.
      rewrite (proj2 (Z.gtb_lt _ _) Hlt). reflexivity.
    + rewrite Hother, Hp1, Hirr. simpl. rewrite andb_false_r. reflexivity.
  - rewrite plan_by_groups.
    unfold find_duplicate_transactions, group_all, group_step. simpl.
    rewrite Hko. simpl. rewrite Hkc. simpl. rewrite Heq'. simpl.
    unfold group_plan, earliest_tx, classified. simpl.
    destruct (Z.ltb_spec (Tx.create card) (Tx.create other)) as [Hlt|Hge]; simpl.
    + rewrite Hother, Hp1, Hirr. simpl.
      rewrite (proj2 (Z.ltb_ge _ _)) by lia.
      rewrite andb_false_r. reflexivity.
    + rewrite Hcard, Hirr. simpl. rewrite Z.gtb_ltb.
      destruct (Tx.create other <? Tx.create card); reflexivity.
Qed.

End Reconciliation.

(** ** The matcher *)

Section Matcher.

Import Re.

Lemma nullable_matches (r : regex) : nullable r = true <-> matches r [].
Proof.
  induction r as [| |k|r1 IH1 r2 IH2|r1 IH1 r2 IH2|r IH|r IH]; simpl.
  - split; [discriminate|]. intros H. inversion H.
  - split; [constructor|reflexivity].
  - split; [discriminate|]. intros H. inversion H.
  - rewrite orb_true_iff, IH1, IH2. split.
    + intros [H|H]; [now apply m_alt_l | now apply m_alt_r].
    + intros H. inversion H; subst; auto.
  - rewrite andb_true_iff, IH1, IH2. split.
    + intros [H1 H2]. now apply (m_seq H1 H2).
    + intros H. inversion H as [| | | |? ? u v H1 H2 Hr Huv| | |]; subst.
      apply app_eq_nil in Huv as [-> ->]. auto.
  - split; [constructor|reflexivity].
  - rewrite IH. split.
    + intros H. apply (m_plus H (m_star_nil r)).
    + intros H. inversion H as [| | | | | | |? u v H1 H2 Hr Huv]; subst.
      apply app_eq_nil in Huv as [-> ->]. auto.
Qed.

Lemma star_cons (r : regex) (c : ascii) (w : list ascii) :
  matches (Star r) (c :: w) ->
  exists u v, w = u ++ v /\ matches r (c :: u) /\ matches (Star r) v.
Proof.
  intros H. remember (Star r) as sr eqn:Hsr. remember (c :: w) as cw eqn:Hcw.
  revert w Hcw.
  induction H as [| | | | | |r' u v Hu _ Hv IHv|]; try discriminate.
  intros w Hcw. injection Hsr as ->.
  destruct u as [|d u].
  - simpl in Hcw. now apply IHv.
  - simpl in Hcw. injection Hcw as -> <-. exists u, v. auto.
Qed.

Lemma deriv_matches (r : regex) : forall c w,
  matches (deriv c r) w <-> matches r (c :: w).
Proof.
  induction r as [| |k|r1 IH1 r2 IH2|r1 IH1 r2 IH2|r IH|r IH]; intros c w; simpl.
  - split; intros H; inversion H.
  - split; intros H; inversion H.
  - destruct (cls_mem k c) eqn:E; split; intros H; inversion H; subst.
    + now constructor.
    + constructor.
    + congruence.
  - split; intros H.
    + inversion H; subst; [apply m_alt_l, IH1 | apply m_alt_r, IH2]; auto.
    + inversion H; subst; [apply m_alt_l, IH1 | apply m_alt_r, IH2]; auto.
  - assert (Hl : matches (Seq (deriv c r1) r2) w -> matches (Seq r1 r2) (c :: w)).
    { intros H. inversion H as [| | | |? ? u v H1 H2 Hr Huv| | |]; subst.
      apply IH1 in H1. apply (m_seq H1 H2). }
    assert (Hr : forall u v, u ++ v = c :: w -> u <> [] -> matches r1 u ->
                 matches r2 v -> matches (Seq (deriv c r1) r2) w).
    { intros [|d u] v Huv Hne H1 H2; [congruence|].
      simpl in Huv. injection Huv as -> <-. apply m_seq; auto. now apply IH1. }
    destruct (nullable r1) eqn:E.
    + split; intros H.
      * inversion H; subst; auto.
        apply nullable_matches in E. apply (m_seq (u := []) E). now apply IH2.
      * inversion H as [| | | |? ? u v H1 H2 Hr' Huv| | |]; subst.
        destruct u as [|d u].
        -- simpl in Huv. subst v. apply m_alt_r. now apply IH2.
        -- apply m_alt_l. eapply Hr; eauto. discriminate.
    + split; intros H; auto.
      inversion H as [| | | |? ? u v H1 H2 Hr' Huv| | |]; subst.
      eapply Hr; eauto. intros ->.
      apply nullable_matches in H1. congruence.
  - split; intros H.
    + inversion H as [| | | |? ? u v H1 H2 Hr Huv| | |]; subst.
      apply IH in H1. apply (m_star_app H1 H2).
    + apply star_cons in H as (u & v & -> & H1 & H2).
      apply m_seq; auto. now apply IH.
  - split; intros H.
    + inversion H as [| | | |? ? u v H1 H2 Hr Huv| | |]; subst.
      apply IH in H1. apply (m_plus H1 H2).
    + inversion H as [| | | | | | |? u v H1 H2 Hr Huv]; subst.
      destruct u as [|d u].
      * simpl in Huv. subst v.
        apply star_cons in H2 as (u & v & -> & H1' & H2').
        apply m_seq; auto. now apply IH.
      * simpl in Huv. injection Huv as -> <-. apply m_seq; auto. now apply IH.
Qed.

(** [match_here] finds the prefixes in [r]. *)
Lemma match_here_spec (s : list ascii) : forall r,
  match_here r s = true <-> exists u v, s = u ++ v /\ matches r u.
Proof.
  induction s as [|c t IH]; intros r; simpl.
  - rewrite orb_false_r, nullable_matches. split.
    + intros H. exists [], []. auto.
    + intros (u & v & Huv & H). symmetry in Huv.
      apply app_eq_nil in Huv as [-> _]. exact H.
  - rewrite orb_true_iff, nullable_matches, IH. split.
    + intros [H|(u & v & -> & H)].
      * exists [], (c :: t). auto.
      * exists (c :: u), v. split; auto. now apply deriv_matches.
    + intros ([|d u] & v & Huv & H); [now left|].
      simpl in Huv. injection Huv as <- ->. right.
      exists u, v. split; auto. now apply deriv_matches.
Qed.

(** [search] finds the factors in [r]. *)
Lemma search_spec (r : regex) (s : list ascii) :
  search r s = true <->
  exists before u rest, s = before ++ u ++ rest /\ matches r u.
Proof.
  induction s as [|c t IH]; simpl.
  - rewrite orb_false_r, orb_false_r, nullable_matches. split.
    + intros H. exists [], [], []. auto.
    + intros (b & u & v & Huv & H). symmetry in Huv.
      apply app_eq_nil in Huv as [_ Huv]. apply app_eq_nil in Huv as [-> _].
      exact H.
  - rewrite orb_true_iff, IH.
    change (nullable r || match_here (deriv c r) t) with (match_here r (c :: t)).
    rewrite match_here_spec. split.
    + intros [(u & v & Huv & H)|(b & u & v & -> & H)].
      * exists [], u, v. auto.
      * exists (c :: b), u, v. auto.
    + intros ([|d b] & u & v & Huv & H).
      * left. exists u, v. auto.
      * simpl in Huv. injection Huv as <- ->. right. exists b, u, v. auto.
Qed.

End Matcher.

(** ** The card pattern *)

Section CardPattern.

Import Re.

Lemma matches_seq (r1 r2 : regex) (w : list ascii) :
  matches (Seq r1 r2) w <->
  exists u v, w = u ++ v /\ matches r1 u /\ matches r2 v.
Proof.
  split.
  - intros H. inversion H; subst. eauto.
  - intros (u & v & -> & H1 & H2). now apply m_seq.
Qed.

Lemma matches_cls (k : cls) (w : list ascii) :
  matches (Cls k) w <-> exists c, w = [c] /\ cls_mem k c = true.
Proof.
  split.
  - intros H. inversion H; subst. eauto.
  - intros (c & -> & H). now constructor.
Qed.

Lemma matches_lit (s w : list ascii) : matches (lit s) w <-> w = s.
Proof.
  revert w. induction s as [|c t IH]; intros w; simpl.
  - split; intros H; [now inversion H | subst; constructor].
  - rewrite matches_seq. split.
    + intros (u & v & -> & Hu & Hv). apply matches_cls in Hu as (d & -> & Hd).
      simpl in Hd. apply Ascii.eqb_eq in Hd. apply IH in Hv. now subst.
    + intros ->. exists [c], t. repeat split.
      * constructor. simpl. apply Ascii.eqb_refl.
      * now apply IH.
Qed.

Lemma matches_star_cls (k : cls) (w : list ascii) :
  matches (Star (Cls k)) w <-> Forall (fun c => cls_mem k c = true) w.
Proof.
  split.
  - intros H. remember (Star (Cls k)) as r eqn:Hr.
    induction H as [| | | | | |r' u v Hu _ Hv IHv|]; try discriminate.
    + constructor.
    + injection Hr as ->. apply matches_cls in Hu as (c & -> & Hc).
      simpl. constructor; auto.
  - induction 1 as [|c w Hc _ IH]; [constructor|].
    apply (m_star_app (u := [c])); auto. now constructor.
Qed.

Lemma matches_plus_cls (k : cls) (w : list ascii) :
  matches (Plus (Cls k)) w <->
  w <> [] /\ Forall (fun c => cls_mem k c = true) w.
Proof.
  split.
  - intros H. inversion H as [| | | | | | |? u v Hu Hv Hr Huv]; subst.
    apply matches_cls in Hu as (c & -> & Hc). apply matches_star_cls in Hv.
    split; [discriminate|]. simpl. constructor; auto.
  - intros [Hne H]. destruct w as [|c w]; [congruence|].
    inversion H; subst.
    apply (m_plus (u := [c])); [now constructor | now apply matches_star_cls].
Qed.

Lemma matches_alt_all (rs : list regex) (w : list ascii) :
  matches (alt_all rs) w <-> exists r, In r rs /\ matches r w.
Proof.
  induction rs as [|r rs IH]; simpl.
  - split; [intros H; inversion H | intros (r & [] & _)].
  - split.
    + intros H. inversion H; subst; [now eauto|].
      apply IH in H3 as (r' & Hin & Hr'). eauto.
    + intros (r' & [<-|Hin] & Hr'); [now apply m_alt_l|].
      apply m_alt_r, IH. eauto.
Qed.

(** The table of all decimal digits lists the characters with a decimal
    value. *)
Lemma in_decimals (cp : N) :
  In cp Unicode.decimals <-> Unicode.is_decimal cp = true.
Proof.
  unfold Unicode.decimals, Unicode.is_decimal, Unicode.decimal_value.
  rewrite in_flat_map. split.
  - intros (z & Hz & Hin). apply in_map_iff in Hin as (k & <- & Hk).
    apply in_seq in Hk.
    destruct (find _ Unicode.decimal_zeros) eqn:E; [reflexivity|].
    pose proof (find_none _ _ E z Hz) as Hn. simpl in Hn.
    apply andb_false_iff in Hn as [Hn|Hn].
    + apply N.leb_gt in Hn. lia.
    + apply N.ltb_ge in Hn. lia.
  - destruct (find _ Unicode.decimal_zeros) as [z|] eqn:E; [|discriminate].
    intros _. apply find_some in E as [Hz Hc].
    apply andb_true_iff in Hc as [Hlo Hhi].
    apply N.leb_le in Hlo. apply N.ltb_lt in Hhi.
    exists z. split; [exact Hz|]. apply in_map_iff.
    exists (N.to_nat (cp - z)). split; [lia|]. apply in_seq. lia.
Qed.

(** [\d] matches the encoding of one decimal digit. *)
Lemma matches_digit (w : list ascii) :
  matches digit w <->
  exists cp, Unicode.is_decimal cp = true /\ w = Unicode.encode cp.
Proof.
  unfold digit. rewrite matches_alt_all. split.
  - intros (r & Hin & Hr). apply in_map_iff in Hin as (cp & <- & Hcp).
    apply matches_lit in Hr. apply in_decimals in Hcp. eauto.
  - intros (cp & Hcp & ->). exists (lit (Unicode.encode cp)). split.
    + apply in_map_iff. exists cp. split; [reflexivity|]. now apply in_decimals.
    + now apply matches_lit.
Qed.

Lemma matches_star_digit (w : list ascii) :
  matches (Star digit) w <->
  exists cps,
    Forall (fun cp => Unicode.is_decimal cp = true) cps
    /\ w = flat_map Unicode.encode cps.
Proof.
  split.
  - intros H. remember (Star digit) as r eqn:Hr.
    induction H as [| | | | | |r' u v Hu _ Hv IHv|]; try discriminate.
    + exists []. split; [constructor|reflexivity].
    + injection Hr as ->. apply matches_digit in Hu as (cp & Hcp & ->).
      destruct (IHv eq_refl) as (cps & Hall & ->).
      exists (cp :: cps). split; [now constructor|reflexivity].
  - intros (cps & Hall & ->).
    induction Hall as [|cp cps Hcp _ IH]; simpl; [constructor|].
    apply m_star_app; [|exact IH]. apply matches_digit. eauto.
Qed.

Lemma matches_plus_digit (w : list ascii) :
  matches (Plus digit) w <-> decimal_digits w.
Proof.
  unfold decimal_digits. split.
  - intros H. inversion H as [| | | | | | |? u v Hu Hv Hr Huv]; subst.
    apply matches_digit in Hu as (cp & Hcp & ->).
    apply matches_star_digit in Hv as (cps & Hall & ->).
    exists (cp :: cps). repeat split; [discriminate|now constructor].
  - intros ([|cp cps] & Hne & Hall & ->); [congruence|].
    inversion Hall as [|? ? Hcp Hall']; subst. simpl.
    apply m_plus; [apply matches_digit; eauto|].
    apply matches_star_digit. eauto.
Qed.

Lemma matches_three_upper (w : list ascii) :
  matches three_upper w <-> three_letter_code w.
Proof.
  unfold three_upper, three_letter_code. rewrite matches_seq. split.
  - intros (u & v & -> & Hu & Hv).
    apply matches_seq in Hv as (v1 & v2 & -> & Hv1 & Hv2).
    apply matches_cls in Hu as (a & -> & Ha).
    apply matches_cls in Hv1 as (b & -> & Hb).
    apply matches_cls in Hv2 as (c & -> & Hc).
    simpl in *. split; [reflexivity|]. repeat constructor; auto.
  - intros [Hlen H].
    destruct w as [|a [|b [|c [|d w]]]]; try discriminate.
    inversion H as [|? ? Ha H']; subst.
    inversion H' as [|? ? Hb H'']; subst.
    inversion H'' as [|? ? Hc _]; subst.
    exists [a], [b; c]. repeat split; [now constructor|].
    apply (m_seq (u := [b]) (v := [c])); now constructor.
Qed.

(** The factors of the card pattern are the texts of the card shape. *)
Lemma card_re_shape (code : regex) (codes : list ascii -> Prop) :
  (forall w, matches code w <-> codes w) ->
  forall s, search (card_re code) s = true <-> card_shape codes s.
Proof.
  intros Hcode s. rewrite search_spec. unfold card_shape, card_re. split.
  - intros (before & u & rest & -> & H).
    apply matches_seq in H as (u1 & w1 & -> & H1 & H).
    apply matches_seq in H as (u2 & w2 & -> & H2 & H).
    apply matches_seq in H as (u3 & w3 & -> & H3 & H).
    apply matches_seq in H as (u4 & w4 & -> & H4 & H).
    apply matches_seq in H as (u5 & w5 & -> & H5 & H).
    apply matches_seq in H as (u6 & u7 & -> & H6 & H7).
    apply matches_lit in H1, H5. subst u1 u5.
    apply matches_plus_digit in H2, H4.
    apply matches_cls in H3 as (c3 & -> & Hc3), H7 as (c7 & -> & Hc7).
    unfold cls_mem in Hc3, Hc7. apply Ascii.eqb_eq in Hc3, Hc7. subst c3 c7.
    apply Hcode in H6.
    exists before, u2, u4, u6, rest. split; [|now auto].
    now rewrite <- !app_assoc.
  - intros (before & whole & frac & c & rest & -> & Hd1 & Hd2 & Hc).
    exists before,
      (text "Card transaction of " ++ whole ++ text "." ++ frac
       ++ text " (" ++ c ++ text ")"), rest.
    split; [now rewrite <- !app_assoc|].
    apply m_seq; [now apply matches_lit|].
    apply m_seq; [now apply matches_plus_digit|].
    apply m_seq; [constructor; reflexivity|].
    apply m_seq; [now apply matches_plus_digit|].
    apply m_seq; [now apply matches_lit|].
    apply m_seq; [now apply Hcode|].
    constructor. reflexivity.
Qed.

Lemma pattern_is_card_re : pattern = card_re (Plus (Cls Upper)).
Proof. reflexivity. Qed.

Lemma card_rule_shape (m : Tx.t) :
  card_rule m = true <-> card_shape upper_code (text (purpose_str m)).
Proof.
  unfold card_rule. rewrite pattern_is_card_re.
  apply card_re_shape. intros w. apply matches_plus_cls.
Qed.

(** C4, as the code has it.  The first rule fires exactly when the purpose
    contains a card-transaction description followed by a decimal amount
    and, in parentheses, one or more upper-case letters (of any number, not
    three).  The digits of the amount are what [\d] matches in a [str]
    pattern, the decimal digits of every script of Unicode; the letters are
    those of [[A-Z]], ASCII only.  A member created after the canonical
    record for which the rule fires is added to the plan whatever the
    purpose of the canonical record. *)
Theorem card_rule_fires (m : Tx.t) :
  (card_rule m = true <-> card_shape upper_code (text (purpose_str m)))
  /\ forall (c : Tx.t) (st : analysis),
       (Tx.create m > Tx.create c)%Z -> card_rule m = true ->
       transactions_to_delete_ids (classify_step c st m)
       = transactions_to_delete_ids st ++ [Tx.id m].
Proof.
  split; [apply card_rule_shape|].
  intros c st Hgt Hcard. rewrite classify_step_ids. unfold classified.
  rewrite Hcard. simpl. rewrite andb_true_r.
  now rewrite (proj2 (Z.gtb_lt _ _)) by lia.
Qed.

End CardPattern.

(** ** The execution gate *)

Section Gate.

Variable W : Type.
Variable api : remote W.

Lemma calls_app (a b : list event) : calls (a ++ b) = calls a ++ calls b.
Proof. unfold calls. apply flat_map_app. Qed.

Lemma delete_step_spec (s : run W) (c : counts) (i : Z) :
  let r := delete_step api (s, c) i in
  calls (trace (fst r)) = calls (trace s) ++ [DeleteTransaction i]
  /\ stdin (fst r) = stdin s
  /\ (exists body, trace (fst r) = trace s ++ body)
  /\ (deleted_count (snd r) + failed_count (snd r)
      = deleted_count c + failed_count c + 1)%nat
  /\ failed_count (snd r)
     = (failed_count c
        + if snd (delete_check_account_transaction api (world s) i)
          then 0 else 1)%nat.
Proof.
  unfold delete_step. simpl.
  destruct (delete_check_account_transaction api (world s) i) as [w ok].
  destruct ok; simpl; rewrite !calls_app; simpl; rewrite !app_nil_r;
    repeat split; try lia; eexists; rewrite <- !app_assoc; reflexivity.
Qed.

(** The deletion loop attempts every identifier, in order, whatever the
    calls answer, and counts each attempt once. *)
Lemma delete_fold (ids : list Z) : forall (s : run W) (c : counts),
  let r := fold_left (delete_step api) ids (s, c) in
  calls (trace (fst r)) = calls (trace s) ++ map DeleteTransaction ids
  /\ stdin (fst r) = stdin s
  /\ (exists body, trace (fst r) = trace s ++ body)
  /\ (deleted_count (snd r) + failed_count (snd r)
      = deleted_count c + failed_count c + List.length ids)%nat.
Proof.
  induction ids as [|i ids IH]; intros s c; cbn [fold_left].
  - simpl. repeat split; try (now rewrite app_nil_r); try lia.
    exists []. now rewrite app_nil_r.
  - destruct (delete_step_spec s c i) as (Hc1 & Hs1 & (b1 & Hb1) & Hn1 & _).
    destruct (delete_step api (s, c) i) as [s1 c1]. simpl in Hc1, Hs1, Hb1, Hn1.
    destruct (IH s1 c1) as (Hc & Hs & (body & Hb) & Hn).
    cbv zeta. repeat split.
    + rewrite Hc, Hc1. simpl. now rewrite <- app_assoc.
    + congruence.
    + exists (b1 ++ body). rewrite Hb, Hb1. now rewrite app_assoc.
    + simpl. lia.
Qed.

(** With a sink that fails on [k] and on nothing else, the failures are
    the occurrences of [k]. *)
Lemma delete_fold_failed (k : Z) (ids : list Z) :
  (forall w, snd (delete_check_account_transaction api w k) = false) ->
  (forall w i, i <> k -> snd (delete_check_account_transaction api w i) = true) ->
  forall (s : run W) (c : counts),
    failed_count (snd (fold_left (delete_step api) ids (s, c)))
    = (failed_count c + count_occ Z.eq_dec ids k)%nat.
Proof.
  intros Hk Hother. induction ids as [|i ids IH]; intros s c; cbn [fold_left].
  - simpl. lia.
  - destruct (delete_step_spec s c i) as (_ & _ & _ & _ & Hf).
    destruct (delete_step api (s, c) i) as [s1 c1]. simpl in Hf.
    rewrite IH, Hf. simpl. destruct (Z.eq_dec i k) as [->|Hne].
    + rewrite Hk. lia.
    + rewrite (Hother _ _ Hne). lia.
Qed.

Lemma bind_ret (A B : Type) (c : M W A) (k : A -> M W B) (s s' : run W)
  (a : A) (r : outcome B * run W) :
  c s = (Ret a, s') -> k a s' = r -> bind c k s = r.
Proof. intros H <-. unfold bind. now rewrite H. Qed.

Lemma ask_yes (n : nat) (s : run W) (line : string) (rest : list string) :
  stdin s = line :: rest ->
  startswith "y" (normalise line) = true ->
  ask_for_confirmation n s
  = (Ret true,
     {| world := world s; trace := trace s ++ [Ask n]; stdin := rest |}).
Proof.
  intros Hin Hyes. unfold ask_for_confirmation. rewrite Hin.
  cbn [ask_lines]. now rewrite Hyes.
Qed.

(** The gate, once the first line read says yes. *)
Lemma gate_confirmed (ids : list Z) (s : run W) (line : string)
  (rest : list string) :
  ids <> [] ->
  stdin s = line :: rest ->
  startswith "y" (normalise line) = true ->
  let s1 :=
    emit (Out MUserConfirmed)
      {| world := world s;
         trace := (trace s ++ [Out MDeletionConfirmation])
                  ++ [Ask (List.length ids)];
         stdin := rest |} in
  let r := fold_left (delete_step api) ids
             (s1, {| deleted_count := 0; failed_count := 0 |}) in
  execution_gate api false ids s
  = (Ret tt,
     emit (Out (MSummaryFailed (failed_count (snd r))))
       (emit (Out (MSummaryDeleted (deleted_count (snd r))))
          (emit (Out MSummary) (fst r)))).
Proof.
  intros Hne Hin Hyes.
  unfold execution_gate. destruct ids as [|i0 ids0] eqn:Eids; [congruence|].
  rewrite <- Eids in *. clear Eids i0 ids0 Hne.
  set (s1 := emit (Out MUserConfirmed) _).
  set (r := fold_left (delete_step api) ids _).
  assert (Hd : delete_all api ids s1 = (Ret (snd r), fst r)).
  { unfold delete_all. fold r. now destruct r. }
  eapply bind_ret; [reflexivity|].
  eapply bind_ret; [eapply ask_yes; [exact Hin | exact Hyes]|].
  eapply bind_ret; [reflexivity|].
  eapply bind_ret; [exact Hd|].
  eapply bind_ret; [reflexivity|].
  eapply bind_ret; [reflexivity|].
  reflexivity.
Qed.

(** C7.  The user has confirmed, deleting [k], which is in the plan once,
    fails and every other deletion succeeds: the run deletes every
    identifier of the plan in order, goes on after the failure, returns,
    and ends with the summary of N-1 deleted and 1 failed. *)
Theorem deletion_isolation (ids : list Z) (k : Z) (s : run W)
  (line : string) (rest : list string) :
  count_occ Z.eq_dec ids k = 1%nat ->
  (forall w, snd (delete_check_account_transaction api w k) = false) ->
  (forall w i, i <> k -> snd (delete_check_account_transaction api w i) = true) ->
  stdin s = line :: rest ->
  startswith "y" (normalise line) = true ->
  exists s' body,
    execution_gate api false ids s = (Ret tt, s')
    /\ calls (trace s') = calls (trace s) ++ map DeleteTransaction ids
    /\ trace s'
       = trace s ++ body
         ++ [Out MSummary; Out (MSummaryDeleted (List.length ids - 1));
             Out (MSummaryFailed 1)].
Proof.
  intros Hocc Hk Hother Hin Hyes.
  assert (Hne : ids <> []) by (intros ->; discriminate).
  rewrite (gate_confirmed s Hne Hin Hyes).
  match goal with |- context [fold_left _ ids (?s1, ?c1)] =>
    pose proof (delete_fold ids s1 c1) as (Hc & Hs & (body & Hb) & Hn);
    pose proof (delete_fold_failed ids Hk Hother s1 c1) as Hf;
    destruct (fold_left (delete_step api) ids (s1, c1)) as [s2 c2]
  end.
  unfold emit in *.
  cbn [fst snd trace world stdin deleted_count failed_count] in *.
  rewrite Hocc in Hf.
  eexists.
  exists ([Out MDeletionConfirmation; Ask (List.length ids); Out MUserConfirmed]
          ++ body).
  split; [reflexivity|].
  cbn [fst snd trace world stdin]. split.
  - rewrite !calls_app, Hc, !calls_app. cbn [calls flat_map app].
    now rewrite !app_nil_r.
  - rewrite Hb, Hf. replace (deleted_count c2) with (List.length ids - 1)%nat by lia.
    rewrite <- !app_assoc. reflexivity.
Qed.

End Gate.

(** ** Simulation mode *)

Section Simulation.

Variable fromisoformat_date : string -> option date.
Variable W : Type.
Variable api : remote W.

Lemma quiet_calls (l : list event) : Forall quiet l -> calls l = [].
Proof.
  induction 1 as [|e l [Hc _] _ IH]; [reflexivity|].
  unfold calls in *. simpl. rewrite IH. destruct e; try discriminate; reflexivity.
Qed.

Lemma quiet_reported (l : list event) :
  Forall quiet l -> flat_map reported l = [].
Proof.
  induction 1 as [|e l [_ Hr] _ IH]; [reflexivity|].
  simpl. now rewrite Hr, IH.
Qed.

Lemma grouping_log_quiet (transactions : list Tx.t) :
  Forall quiet (snd (find_duplicate_transactions fromisoformat_date transactions)).
Proof.
  assert (Hfold : forall l st, Forall quiet (grouping_log st) ->
            Forall quiet (grouping_log
                            (fold_left (group_step fromisoformat_date) l st))).
  { induction l as [|tx l IH]; intros st H; simpl; [exact H|].
    apply IH. unfold group_step.
    destruct (tx_key fromisoformat_date tx); simpl; auto;
      apply Forall_app; split; auto; repeat constructor. }
  unfold find_duplicate_transactions. simpl.
  assert (Hg : Forall quiet (grouping_log (group_all fromisoformat_date transactions))).
  { apply Hfold. repeat constructor. }
  apply Forall_app. split; [|repeat constructor].
  destruct (0 <? _)%nat; auto.
  apply Forall_app. split; auto. repeat constructor.
Qed.

(** C9.  In simulation mode with a plan that is not empty, the run from
    the grouping on prints the report, with a line for each identifier of
    the plan, and the count of the plan, and returns; it issues no call, it
    reads no input, and the state of the remote ledger is the one it
    started from. *)
Theorem dry_run_issues_no_call (transactions : list Tx.t) (s : run W) :
  plan fromisoformat_date transactions <> [] ->
  exists report,
    reconcile fromisoformat_date api true transactions s
    = (Ret tt,
       {| world := world s;
          trace := trace s ++ report
                   ++ [Out MDeletionConfirmation;
                       Out (MDryRunPlan
                              (List.length (plan fromisoformat_date transactions)))];
          stdin := stdin s |})
    /\ calls report = []
    /\ flat_map reported report = plan fromisoformat_date transactions.
Proof.
  intros Hne. unfold plan in *. unfold reconcile.
  pose proof (grouping_log_quiet transactions) as Hq.
  destruct (find_duplicate_transactions fromisoformat_date transactions)
    as [duplicate_groups log]. simpl in Hq, Hne |- *.
  exists (log ++ analysis_log (analyse duplicate_groups)).
  split; [|split].
  - unfold bind, emit_all, execution_gate. simpl.
    destruct (transactions_to_delete_ids (analyse duplicate_groups)) as [|i ids];
      [congruence|].
    unfold bind, print, emit. simpl. rewrite <- !app_assoc. reflexivity.
  - rewrite calls_app, (quiet_calls Hq), analyse_no_call. reflexivity.
  - rewrite flat_map_app, (quiet_reported Hq), analyse_reported. reflexivity.
Qed.

End Simulation.

(** ** Account resolution in simulation mode *)

Section Resolution.

Variable fromisoformat_date : string -> option date.
Variable W : Type.
Variable api : remote W.

Lemma dict_get_set_other (V : Type) (n k : string) (v : V)
  (d : list (string * V)) :
  String.eqb n k = false ->
  dict_get String.eqb k (dict_set String.eqb n v d) = dict_get String.eqb k d.
Proof.
  intros Hn. induction d as [|[k' v'] d IH]; simpl.
  - now rewrite Hn.
  - destruct (String.eqb k' n) eqn:E; simpl.
    + apply String.eqb_eq in E. subst k'. now rewrite Hn.
    + destruct (String.eqb k' k); auto.
Qed.

Lemma truthy_name_name (a : account) (n : string) :
  Accounts.truthy_name a = Some n -> acc_name a = Some n.
Proof.
  unfold Accounts.truthy_name. destruct (acc_name a) as [m|]; [|discriminate].
  destruct (String.eqb m ""); congruence.
Qed.

(** Loading accounts of which none answers to [target] leaves the mode and
    the account map as they are, and no entry for [target] by name. *)
Lemma load_no_match (target : string) (l : list account) :
  no_match target l ->
  forall self,
    dict_get String.eqb target (Accounts.sevdesk_accounts_by_name self) = None ->
    let self' := fold_left Accounts.load_account l self in
    Accounts.dry_run self' = Accounts.dry_run self
    /\ Accounts.account_map self' = Accounts.account_map self
    /\ dict_get String.eqb target (Accounts.sevdesk_accounts_by_name self') = None.
Proof.
  induction l as [|a l IH]; intros Hno self Hget; simpl; [auto|].
  assert (Hno' : no_match target l).
  { intros b Hb. apply Hno. now right. }
  assert (Hstep : Accounts.dry_run (Accounts.load_account self a)
                  = Accounts.dry_run self
                  /\ Accounts.account_map (Accounts.load_account self a)
                     = Accounts.account_map self
                  /\ dict_get String.eqb target
                       (Accounts.sevdesk_accounts_by_name
                          (Accounts.load_account self a)) = None).
  { unfold Accounts.load_account.
    destruct (acc_register a) eqn:Hr; auto.
    destruct (Accounts.truthy_id a) as [i|] eqn:Hi; auto.
    destruct (Accounts.truthy_name a) as [n|] eqn:Hn; auto.
    simpl. repeat split. rewrite dict_get_set_other; auto.
    destruct (String.eqb n target) eqn:E; [|reflexivity].
    apply String.eqb_eq in E. subst n. apply truthy_name_name in Hn.
    destruct (Hno a (or_introl eq_refl) Hn); congruence. }
  destruct Hstep as (H1 & H2 & H3).
  destruct (IH Hno' _ H3) as (H4 & H5 & H6).
  repeat split; congruence.
Qed.

Lemma double_check_no_match (target : string) (l : list account) :
  no_match target l -> Accounts.double_check target l = None.
Proof.
  induction l as [|a l IH]; intros Hno; simpl; [reflexivity|].
  assert (Hl : Accounts.double_check target l = None).
  { apply IH. intros b Hb. apply Hno. now right. }
  destruct (acc_name a) as [n|] eqn:Hn; auto.
  destruct (acc_register a) eqn:Hr; auto.
  destruct (Accounts.truthy_id a) as [i|] eqn:Hi; auto.
  destruct (String.eqb n target) eqn:E; auto.
  apply String.eqb_eq in E. subst n.
  destruct (Hno a (or_introl eq_refl) Hn); congruence.
Qed.

Lemma load_returns (target : string) (self : Accounts.t) (s : run W) :
  listing_without api target ->
  dict_get String.eqb target (Accounts.sevdesk_accounts_by_name self) = None ->
  exists self' m,
    Accounts._load_existing_accounts api self s
    = (Ret self',
       {| world := fst (get_check_accounts api (world s) None);
          trace := trace s
                   ++ [Out MFetchingAccounts; Call (GetCheckAccounts None); Out m];
          stdin := stdin s |})
    /\ Accounts.dry_run self' = Accounts.dry_run self
    /\ Accounts.account_map self' = Accounts.account_map self
    /\ dict_get String.eqb target (Accounts.sevdesk_accounts_by_name self') = None.
Proof.
  intros Hl Hget. unfold Accounts._load_existing_accounts.
  unfold bind, print, call, emit. simpl.
  specialize (Hl (world s) None).
  destruct (get_check_accounts api (world s) None) as [w r]. simpl in *.
  destruct r as [| |l]; [contradiction| |].
  - exists self, MNoAccounts. simpl. rewrite <- !app_assoc. auto.
  - destruct (load_no_match Hl self Hget) as (H1 & H2 & H3).
    exists (fold_left Accounts.load_account l self),
      (MFoundAccounts
         (List.length (Accounts.sevdesk_accounts_cache
                         (fold_left Accounts.load_account l self)))).
    unfold ret. simpl. rewrite <- !app_assoc. auto.
Qed.

Lemma resolve_exits (identifier currency : string) (self : Accounts.t)
  (s : run W) :
  let target := Accounts._generate_account_name identifier currency in
  listing_without api target ->
  Accounts.dry_run self = true ->
  Accounts.account_map self = [] ->
  dict_get String.eqb target (Accounts.sevdesk_accounts_by_name self) = None ->
  Accounts.get_or_create_account_id api self identifier currency s
  = (Exit 1,
     {| world := fst (get_check_accounts api (world s) (Some target));
        trace := trace s
                 ++ [Out (MLooking target); Call (GetCheckAccounts (Some target));
                     Out (MNotFound target); Out MDryRunWouldCreate;
                     Err (MError DryRunNoAccount)];
        stdin := stdin s |}).
Proof.
  intros target Hl Hdry Hmap Hget.
  unfold Accounts.get_or_create_account_id. fold target.
  rewrite Hmap. cbn [dict_get]. rewrite Hget.
  unfold bind, print, call, die, emit. simpl.
  specialize (Hl (world s) (Some target)).
  destruct (get_check_accounts api (world s) (Some target)) as [w r]. simpl in *.
  destruct r as [| |l]; [contradiction| |].
  - rewrite Hdry. simpl. rewrite <- !app_assoc. reflexivity.
  - rewrite (double_check_no_match Hl), Hdry. simpl.
    rewrite <- !app_assoc. reflexivity.
Qed.

(** C10.  In simulation mode, when no listed account answers to the
    generated name, [main] ends with [die]: exit code 1 after the message
    that it cannot proceed.  The two listing calls are the only calls of the
    run: no account is created and no transaction is fetched or deleted. *)
Theorem dry_run_without_account_exits (a : args) (fuel : nat) (s : run W) :
  let target :=
    Accounts._generate_account_name (fst (args_account a)) (snd (args_account a)) in
  args_dry_run a = true ->
  listing_without api target ->
  exists s' head,
    main fromisoformat_date api a fuel s = (Exit 1, s')
    /\ trace s'
       = trace s ++ head
         ++ [Out (MNotFound target); Out MDryRunWouldCreate;
             Err (MError DryRunNoAccount)]
    /\ calls (trace s')
       = calls (trace s)
         ++ [GetCheckAccounts None; GetCheckAccounts (Some target)].
Proof.
  intros target Hdry Hl. unfold main, Accounts.__init__.
  destruct (load_returns
              {| Accounts.dry_run := args_dry_run a; Accounts.account_map := [];
                 Accounts.sevdesk_accounts_cache := [];
                 Accounts.sevdesk_accounts_by_name := [] |} s Hl eq_refl)
    as (self' & m & Hload & H1 & H2 & H3).
  simpl in H1, H2. rewrite Hdry in H1.
  unfold bind at 1. rewrite Hload.
  unfold bind at 1. fold target.
  rewrite (@resolve_exits (fst (args_account a)) (snd (args_account a)) self'
             _ Hl H1 H2 H3).
  eexists.
  exists [Out MFetchingAccounts; Call (GetCheckAccounts None); Out m;
          Out (MLooking target); Call (GetCheckAccounts (Some target))].
  split; [reflexivity|]. cbn [trace]. split.
  - rewrite <- !app_assoc. reflexivity.
  - rewrite !calls_app. cbn [calls flat_map app]. rewrite <- !app_assoc.
    reflexivity.
Qed.

End Resolution.

(** ** The prompt and the runs it starts *)

Section Confirmation.

Variable W : Type.
Variable api : remote W.














End Confirmation.

(** ** Fetching the transactions *)

Section Fetch.

Variable W : Type.
Variable api : remote W.
Variable account : Z.

Abbreviation page_size := TRANSACTION_FETCH_LIMIT.

Lemma page_size_pos : (0 < page_size)%nat.
Proof. unfold TRANSACTION_FETCH_LIMIT. lia. Qed.

Lemma skipn_length_app (A : Type) (a b : list A) :
  skipn (List.length a) (a ++ b) = b.
Proof. induction a as [|x a IH]; [reflexivity|exact IH]. Qed.

Section Paged.

(** A server that holds [data] and answers a page from the offset asked. *)
Variable data : list Tx.t.
Hypothesis paged : forall w off,
  get_transactions api w account off
  = (w, Objects (firstn page_size (skipn (Z.to_nat off) data))).

Lemma fetch_pages_paged (fuel : nat) : forall j acc rest (s : run W),
  data = acc ++ rest ->
  List.length acc = (page_size * j)%nat ->
  (List.length rest < page_size * fuel)%nat ->
  exists s',
    fetch_pages api fuel account (Z.of_nat (page_size * j)) acc s = (Ret data, s')
    /\ world s' = world s /\ stdin s' = stdin s
    /\ calls (trace s')
       = calls (trace s)
         ++ map (fun k => GetTransactions account (Z.of_nat (page_size * k)))
              (seq j (S (List.length rest / page_size))).
Proof.
  pose proof page_size_pos as Hpos.
  induction fuel as [|fuel IH]; intros j acc rest s Hdata Hacc Hfuel; [lia|].
  cbn [fetch_pages]. unfold bind at 1. unfold call at 1.
  assert (Hskip : skipn (page_size * j) data = rest)
    by (rewrite <- Hacc, Hdata; apply skipn_length_app).
  rewrite paged, Nat2Z.id, Hskip. clear Hskip.
  destruct (firstn page_size rest) as [|p ps] eqn:Ep.
  - (* nothing is left *)
    assert (Hrest : rest = []).
    { destruct rest as [|x r]; [reflexivity|].
      apply (f_equal (@List.length _)) in Ep. rewrite length_firstn in Ep.
      simpl in Ep. lia. }
    assert (Had : acc = data) by (now rewrite Hdata, Hrest, app_nil_r).
    rewrite Hrest, Had.
    unfold bind, print, ret, emit. cbn [world trace stdin].
    eexists. split; [reflexivity|]. cbn [world trace stdin]. repeat split.
    rewrite Nat.div_small by (simpl; lia).
    rewrite !calls_app. cbn [calls flat_map app seq map].
    now rewrite !app_nil_r.
  - rewrite <- Ep.
    assert (Hlen : List.length (firstn page_size rest)
                   = Nat.min page_size (List.length rest))
      by apply length_firstn.
    destruct (List.length (firstn page_size rest) <? page_size)%nat eqn:Hlt.
    + (* a short page ends the loop *)
      apply Nat.ltb_lt in Hlt.
      rewrite firstn_all2 by lia. rewrite <- Hdata.
      unfold ret. eexists. split; [reflexivity|]. cbn [world trace stdin].
      repeat split.
      rewrite Nat.div_small by lia.
      rewrite !calls_app. cbn [calls flat_map app seq map]. reflexivity.
    + (* a full page: the loop goes on from the next offset *)
      apply Nat.ltb_ge in Hlt.
      assert (Hfull : List.length (firstn page_size rest) = page_size) by lia.
      rewrite Hfull.
      replace (Z.of_nat (page_size * j) + Z.of_nat page_size)%Z
        with (Z.of_nat (page_size * S j)) by lia.
      destruct (IH (S j) (acc ++ firstn page_size rest) (skipn page_size rest)
                  {| world := world s;
                     trace := trace s
                              ++ [Call (GetTransactions account
                                          (Z.of_nat (page_size * j)))];
                     stdin := stdin s |})
        as (s' & Hrun & Hw & Hs & Hc).
      * rewrite <- app_assoc, firstn_skipn. exact Hdata.
      * rewrite length_app, Hfull, Hacc. lia.
      * rewrite length_skipn. lia.
      * exists s'. split; [exact Hrun|]. cbn [world trace stdin] in *.
        repeat split; auto.
        rewrite Hc, !calls_app. cbn [calls flat_map app].
        assert (Hdiv : (List.length rest / page_size
                        = S (List.length (skipn page_size rest) / page_size))%nat).
        { rewrite length_skipn.
          replace (List.length rest)
            with (1 * page_size + (List.length rest - page_size))%nat at 1 by lia.
          rewrite Nat.div_add_l by lia. reflexivity. }
        rewrite Hdiv. cbn [seq map]. rewrite <- app_assoc. reflexivity.
Qed.

(** X6.  Against a server that pages by the offset, the fetch returns the
    transactions of the server, each once and in order, after one call for
    each offset 0, 100, 200, ... up to the first page that is short or
    empty; it changes nothing and reads no input. *)
Theorem pages_are_reassembled (fuel : nat) (s : run W) :
  (List.length data < page_size * fuel)%nat ->
  exists s',
    get_all_account_transactions api fuel account s = (Ret data, s')
    /\ world s' = world s /\ stdin s' = stdin s
    /\ calls (trace s')
       = calls (trace s)
         ++ map (fun k => GetTransactions account (Z.of_nat (page_size * k)))
              (seq 0 (S (List.length data / page_size))).
Proof.
  intros Hfuel. unfold get_all_account_transactions.
  destruct (fetch_pages_paged fuel 0 [] data
              (emit (Out (MFetchingTransactions account)) s) eq_refl)
    as (s1 & Hrun & Hw & Hs & Hc); [simpl; lia | exact Hfuel |].
  replace (Z.of_nat (page_size * 0)) with 0%Z in Hrun by lia.
  eexists. split.
  - eapply bind_ret; [reflexivity|].
    eapply bind_ret; [exact Hrun|].
    eapply bind_ret; [reflexivity|]. reflexivity.
  - unfold emit in *. cbn [world trace stdin] in *. repeat split; auto.
    rewrite !calls_app, Hc, !calls_app. cbn [calls flat_map app].
    now rewrite !app_nil_r.
Qed.

End Paged.

Lemma fetch_pages_endless (fuel : nat) : forall off acc (s : run W),
  (forall w o, exists page,
      snd (get_transactions api w account o) = Objects page
      /\ (page_size <= List.length page)%nat) ->
  fst (fetch_pages api fuel account off acc s) = Unfinished.
Proof.
  induction fuel as [|fuel IH]; intros off acc s Hfull; [reflexivity|].
  cbn [fetch_pages]. unfold bind at 1. unfold call at 1.
  destruct (Hfull (world s) off) as (page & Hpage & Hlen).
  destruct (get_transactions api (world s) account off) as [w r].
  simpl in Hpage. subst r.
  destruct page as [|p ps].
  - pose proof page_size_pos. simpl in Hlen. lia.
  - rewrite (proj2 (Nat.ltb_ge _ _) Hlen). now apply IH.
Qed.

(** X7.  Against a server whose every answer is a page of 100 transactions
    or more, the loop of the fetch never ends: whatever the number of pages
    the model allows, the fetch has not returned. *)
Theorem full_pages_never_end (fuel : nat) (s : run W) :
  (forall w o, exists page,
      snd (get_transactions api w account o) = Objects page
      /\ (page_size <= List.length page)%nat) ->
  fst (get_all_account_transactions api fuel account s) = Unfinished.
Proof.
  intros Hfull. unfold get_all_account_transactions.
  unfold bind at 1. unfold print at 1. unfold bind at 1.
  pose proof (fetch_pages_endless fuel 0 []
                (emit (Out (MFetchingTransactions account)) s) Hfull) as H.
  destruct (fetch_pages api fuel account 0 [] _) as [o s1].
  simpl in H. now subst o.
Qed.

End Fetch.

(** ** Account resolution *)

Section AccountFacts.

Variable W : Type.
Variable api : remote W.

Lemma dict_get_set_same (K V : Type) (eqb : K -> K -> bool) (k : K) (v : V)
  (d : list (K * V)) :
  eqb k k = true -> dict_get eqb k (dict_set eqb k v d) = Some v.
Proof.
  intros Hr. induction d as [|[k' v'] d IH]; simpl.
  - now rewrite Hr.
  - destruct (eqb k' k) eqn:E; simpl; now rewrite E.
Qed.

Lemma account_key_refl (k : string * string) : Accounts.key_eqb k k = true.
Proof. unfold Accounts.key_eqb. now rewrite !String.eqb_refl. Qed.

Lemma account_map_set (self : Accounts.t) (k : string * string) (i : Z) :
  dict_get Accounts.key_eqb k
    (Accounts.account_map (Accounts.set_account_map self k i)) = Some i.
Proof. apply dict_get_set_same, account_key_refl. Qed.

(** Whenever the resolution returns, the identifier is in the account map
    of the object it leaves. *)
Lemma resolved_is_mapped (self self' : Accounts.t) (identifier currency : string)
  (s s' : run W) (i : Z) :
  Accounts.get_or_create_account_id api self identifier currency s
  = (Ret (i, self'), s') ->
  dict_get Accounts.key_eqb (identifier, currency) (Accounts.account_map self')
  = Some i.
Proof.
  unfold Accounts.get_or_create_account_id.
  destruct (dict_get Accounts.key_eqb (identifier, currency)
              (Accounts.account_map self)) as [j|] eqn:Emap.
  - unfold ret. intros H. injection H as <- <- _. exact Emap.
  - set (target := Accounts._generate_account_name identifier currency).
    destruct (match dict_get String.eqb target
                      (Accounts.sevdesk_accounts_by_name self) with
              | Some existing_account => Accounts.truthy_id existing_account
              | None => None
              end) as [j|].
    + unfold bind, print, ret. intros H. injection H as <- <- _.
      apply account_map_set.
    + unfold bind at 1. unfold print at 1. unfold bind at 1. unfold call at 1.
      destruct (get_check_accounts api _ (Some target)) as [w r].
      destruct r as [| |l].
      * discriminate.
      * unfold bind at 1. unfold print at 1.
        destruct (Accounts.dry_run self).
        -- unfold bind, print, die. discriminate.
        -- unfold Accounts.create.
           unfold bind at 1. unfold print at 1. unfold bind at 1. unfold call at 1.
           destruct (create_check_account api _ _ _ _) as [w' r'].
           destruct r' as [| |created]; try (unfold die; discriminate).
           destruct (Accounts.truthy_id created) as [c|];
             [|unfold die; discriminate].
           unfold bind, print, ret. intros H. injection H as <- <- _.
           apply account_map_set.
      * destruct (Accounts.double_check target l) as [[j obj]|].
        -- unfold bind, print, ret. intros H. injection H as <- <- _.
           apply account_map_set.
        -- unfold bind at 1. unfold print at 1.
           destruct (Accounts.dry_run self).
           ++ unfold bind, print, die. discriminate.
           ++ unfold Accounts.create.
              unfold bind at 1. unfold print at 1. unfold bind at 1.
              unfold call at 1.
              destruct (create_check_account api _ _ _ _) as [w' r'].
              destruct r' as [| |created]; try (unfold die; discriminate).
              destruct (Accounts.truthy_id created) as [c|];
                [|unfold die; discriminate].
              unfold bind, print, ret. intros H. injection H as <- <- _.
              apply account_map_set.
Qed.

(** X8.  The resolution is remembered: once [get_or_create_account_id] has
    returned an identifier, asking again for the same (identifier, currency)
    gives the same identifier from the account map, with no call, nothing
    printed and the object unchanged. *)
Theorem resolution_is_remembered (self self' : Accounts.t)
  (identifier currency : string) (s s' : run W) (i : Z) :
  Accounts.get_or_create_account_id api self identifier currency s
  = (Ret (i, self'), s') ->
  forall s2,
    Accounts.get_or_create_account_id api self' identifier currency s2
    = (Ret (i, self'), s2).
Proof.
  intros H s2. apply resolved_is_mapped in H.
  unfold Accounts.get_or_create_account_id. now rewrite H.
Qed.

Lemma truthy_name_some (a : account) (n : string) :
  Accounts.truthy_name a = Some n <-> acc_name a = Some n /\ n <> ""%string.
Proof.
  unfold Accounts.truthy_name. destruct (acc_name a) as [m|].
  - destruct (String.eqb_spec m ""); split.
    + discriminate.
    + intros [H Hn]. injection H as ->. contradiction.
    + intros H. injection H as ->. auto.
    + intros [H _]. exact H.
  - split; [discriminate|intros [H _]; discriminate].
Qed.

(** What the loop of [_load_existing_accounts] leaves under a name: the
    last listed account that answers to it, or what was there. *)
Lemma load_by_name (target : string) (l : list account) :
  target <> ""%string ->
  forall self,
    match dict_get String.eqb target
            (Accounts.sevdesk_accounts_by_name
               (fold_left Accounts.load_account l self)) with
    | Some a =>
        (In a l /\ answers_to target a)
        \/ dict_get String.eqb target (Accounts.sevdesk_accounts_by_name self)
           = Some a
    | None =>
        dict_get String.eqb target (Accounts.sevdesk_accounts_by_name self) = None
        /\ forall a, In a l -> ~ answers_to target a
    end.
Proof.
  intros Hne. induction l as [|x l IH]; intros self.
  - simpl. destruct (dict_get String.eqb target _); auto.
  - cbn [fold_left]. specialize (IH (Accounts.load_account self x)).
    assert (Hx : (answers_to target x
                  /\ dict_get String.eqb target
                       (Accounts.sevdesk_accounts_by_name
                          (Accounts.load_account self x)) = Some x)
                 \/ (~ answers_to target x
                     /\ dict_get String.eqb target
                          (Accounts.sevdesk_accounts_by_name
                             (Accounts.load_account self x))
                        = dict_get String.eqb target
                            (Accounts.sevdesk_accounts_by_name self))).
    { unfold Accounts.load_account, answers_to.
      destruct (acc_register x) eqn:Hr.
      { right. split; [intros (_ & H & _); discriminate|reflexivity]. }
      destruct (Accounts.truthy_id x) as [i|] eqn:Hi.
      2:{ right. split; [intros (_ & _ & H); congruence|reflexivity]. }
      destruct (Accounts.truthy_name x) as [n|] eqn:Hn.
      - apply truthy_name_some in Hn as [Hn Hnn].
        destruct (String.eqb_spec n target) as [->|Hd].
        + left. repeat split; auto; try congruence.
          simpl. apply dict_get_set_same, String.eqb_refl.
        + right. split; [intros (H & _); congruence|].
          simpl. apply dict_get_set_other. now apply String.eqb_neq.
      - right. split; [|reflexivity].
        intros (H & _).
        assert (Hs : Accounts.truthy_name x = Some target)
          by (apply truthy_name_some; auto).
        congruence. }
    destruct (dict_get String.eqb target
                (Accounts.sevdesk_accounts_by_name
                   (fold_left Accounts.load_account l
                      (Accounts.load_account self x)))) as [a|].
    + destruct IH as [[Hin Ha]|Hprev].
      * left. split; [now right|exact Ha].
      * destruct Hx as [[Hax Hgx]|[_ Hgx]]; rewrite Hgx in Hprev.
        -- injection Hprev as <-. left. split; [now left|exact Hax].
        -- now right.
    + destruct IH as [Hprev Hnone].
      destruct Hx as [[_ Hgx]|[Hnx Hgx]]; rewrite Hgx in Hprev; [discriminate|].
      split; [exact Hprev|]. intros a [<-|Ha]; auto.
Qed.

Lemma load_keeps_mode (l : list account) : forall self,
  Accounts.dry_run (fold_left Accounts.load_account l self) = Accounts.dry_run self
  /\ Accounts.account_map (fold_left Accounts.load_account l self)
     = Accounts.account_map self.
Proof.
  induction l as [|x l IH]; intros self; [auto|].
  cbn [fold_left]. destruct (IH (Accounts.load_account self x)) as [H1 H2].
  rewrite H1, H2. unfold Accounts.load_account.
  destruct (acc_register x); auto.
  destruct (Accounts.truthy_id x); auto.
  destruct (Accounts.truthy_name x); auto.
Qed.

Lemma generated_name_not_empty (identifier currency : string) :
  Accounts._generate_account_name identifier currency <> ""%string.
Proof. unfold Accounts._generate_account_name. simpl. discriminate. Qed.

Lemma listed_account_run (dry : bool) (identifier currency : string)
  (s : run W) (l : list account) :
  let target := Accounts._generate_account_name identifier currency in
  snd (get_check_accounts api (world s) None) = Objects l ->
  (exists a, In a l /\ answers_to target a) ->
  exists self s1 a i self' s2,
    Accounts.__init__ api dry s = (Ret self, s1)
    /\ Accounts.get_or_create_account_id api self identifier currency s1
       = (Ret (i, self'), s2)
    /\ In a l /\ answers_to target a /\ Accounts.truthy_id a = Some i
    /\ calls (trace s2) = calls (trace s) ++ [GetCheckAccounts None]
    /\ world s2 = fst (get_check_accounts api (world s) None)
    /\ stdin s2 = stdin s.
Proof.
  intros target Hl (a0 & Hin0 & Ha0).
  set (self0 := {| Accounts.dry_run := dry; Accounts.account_map := [];
                   Accounts.sevdesk_accounts_cache := [];
                   Accounts.sevdesk_accounts_by_name := [] |}).
  pose proof (@load_by_name target l
                (@generated_name_not_empty identifier currency) self0)
    as Hname.
  destruct (load_keeps_mode l self0) as [_ Hmap].
  destruct (dict_get String.eqb target
              (Accounts.sevdesk_accounts_by_name
                 (fold_left Accounts.load_account l self0))) as [a|] eqn:Eget.
  2:{ destruct Hname as [_ Hnone]. now destruct (Hnone a0 Hin0). }
  destruct Hname as [[Hin Ha]|Hprev]; [|discriminate].
  destruct (Accounts.truthy_id a) as [i|] eqn:Hi;
    [|destruct Ha as (_ & _ & Hid); congruence].
  unfold Accounts.__init__, Accounts._load_existing_accounts. fold self0.
  unfold bind at 1. unfold print at 1. unfold bind at 1. unfold call at 1.
  destruct (get_check_accounts api (world (emit (Out MFetchingAccounts) s)) None)
    as [w r] eqn:Ecall.
  change (world (emit (Out MFetchingAccounts) s)) with (world s) in Ecall.
  rewrite Ecall in Hl |- *. simpl in Hl. subst r.
  unfold bind, print, ret, emit. cbn [world trace stdin].
  do 2 eexists. exists a, i. do 2 eexists.
  split; [reflexivity|].
  unfold Accounts.get_or_create_account_id. fold target.
  rewrite Hmap. cbn [dict_get Accounts.account_map self0].
  rewrite Eget, Hi.
  unfold bind, print, ret, emit. cbn [world trace stdin].
  split; [reflexivity|].
  split; [exact Hin|]. split; [exact Ha|]. split; [reflexivity|].
  cbn [trace world stdin]. split; [|split; reflexivity].
  rewrite !calls_app. cbn [calls flat_map app].
  now rewrite !app_nil_r.
Qed.


(** X9.  An account that the first listing shows under the generated name
    (not a register, with an identifier) is resolved from that listing: the
    identifier returned is that of such a listed account, and the listing is
    the only call, in simulation mode or not. *)
Theorem listed_account_is_resolved (dry : bool) (identifier currency : string)
  (s : run W) (l : list account) :
  let target := Accounts._generate_account_name identifier currency in
  snd (get_check_accounts api (world s) None) = Objects l ->
  (exists a, In a l /\ answers_to target a) ->
  exists self s1 a i self' s2,
    Accounts.__init__ api dry s = (Ret self, s1)
    /\ Accounts.get_or_create_account_id api self identifier currency s1
       = (Ret (i, self'), s2)
    /\ In a l /\ answers_to target a /\ Accounts.truthy_id a = Some i
    /\ calls (trace s2) = calls (trace s) ++ [GetCheckAccounts None].
Proof.
  intros target Hl Hex.
  destruct (@listed_account_run dry identifier currency s l Hl Hex)
    as (self & s1 & a & i & self' & s2 & H1 & H2 & H3 & H4 & H5 & H6 & _).
  exists self, s1, a, i, self', s2. repeat split; auto; apply H4.
Qed.

(** X10.  Outside simulation mode, when no listed account answers to the
    generated name and the creation call answers with an account that has an
    identifier, the resolution returns that identifier after exactly two
    calls: the lookup by name and the creation, with the currency in upper
    case and the identifier as account number. *)
Theorem missing_account_is_created (self : Accounts.t)
  (identifier currency : string) (s : run W) (created : account) (i : Z) :
  let target := Accounts._generate_account_name identifier currency in
  let w1 := fst (get_check_accounts api (world s) (Some target)) in
  Accounts.dry_run self = false ->
  dict_get Accounts.key_eqb (identifier, currency) (Accounts.account_map self)
  = None ->
  dict_get String.eqb target (Accounts.sevdesk_accounts_by_name self) = None ->
  listing_without api target ->
  snd (create_check_account api w1 target (Accounts.upper currency) identifier)
  = Objects created ->
  Accounts.truthy_id created = Some i ->
  exists self' s',
    Accounts.get_or_create_account_id api self identifier currency s
    = (Ret (i, self'), s')
    /\ world s'
       = fst (create_check_account api w1 target (Accounts.upper currency)
                identifier)
    /\ calls (trace s')
       = calls (trace s)
         ++ [GetCheckAccounts (Some target);
             CreateCheckAccount target (Accounts.upper currency) identifier].
Proof.
  intros target w1 Hdry Hmap Hname Hl Hcreate Hid.
  unfold Accounts.get_or_create_account_id. fold target.
  rewrite Hmap, Hname.
  unfold bind at 1. unfold print at 1. unfold bind at 1. unfold call at 1.
  specialize (Hl (world s) (Some target)).
  cbn [world emit] in *. fold w1.
  unfold w1 in *. clear w1.
  destruct (get_check_accounts api (world s) (Some target)) as [w r].
  cbn [fst snd] in *.
  assert (Hnone : match r with
                  | Objects l0 => Accounts.double_check target l0
                  | _ => None
                  end = None).
  { destruct r as [| |l0]; auto. now apply double_check_no_match. }
  destruct r as [| |l0]; [contradiction| |];
    rewrite ?Hnone;
    unfold bind at 1; unfold print at 1; rewrite Hdry;
    unfold Accounts.create;
    unfold bind at 1; unfold print at 1; unfold bind at 1; unfold call at 1;
    cbn [world emit];
    destruct (create_check_account api w target (Accounts.upper currency)
                identifier) as [w' r'];
    cbn [fst snd] in *; subst r'; rewrite Hid;
    unfold bind, print, ret, emit; cbn [world trace stdin];
    do 2 eexists; (split; [reflexivity|]); cbn [world trace stdin];
    (split; [reflexivity|]);
    rewrite !calls_app; cbn [calls flat_map app];
    rewrite !app_nil_r, <- !app_assoc; reflexivity.
Qed.

(** X11.  Outside simulation mode, when no listed account answers to the
    generated name and the creation call raises, answers nothing or answers
    with an account without identifier, the resolution ends with [die]:
    exit code 1, after the creation call was issued. *)
Theorem failed_creation_exits (self : Accounts.t)
  (identifier currency : string) (s : run W) :
  let target := Accounts._generate_account_name identifier currency in
  let w1 := fst (get_check_accounts api (world s) (Some target)) in
  Accounts.dry_run self = false ->
  dict_get Accounts.key_eqb (identifier, currency) (Accounts.account_map self)
  = None ->
  dict_get String.eqb target (Accounts.sevdesk_accounts_by_name self) = None ->
  listing_without api target ->
  match snd (create_check_account api w1 target (Accounts.upper currency)
               identifier) with
  | Objects created => Accounts.truthy_id created = None
  | _ => True
  end ->
  exists s' r,
    Accounts.get_or_create_account_id api self identifier currency s
    = (Exit 1, s')
    /\ calls (trace s')
       = calls (trace s)
         ++ [GetCheckAccounts (Some target);
             CreateCheckAccount target (Accounts.upper currency) identifier]
    /\ exists head, trace s' = trace s ++ head ++ [Err (MError r)].
Proof.
  intros target w1 Hdry Hmap Hname Hl Hcreate.
  unfold Accounts.get_or_create_account_id. fold target.
  rewrite Hmap, Hname.
  unfold bind at 1. unfold print at 1. unfold bind at 1. unfold call at 1.
  specialize (Hl (world s) (Some target)).
  cbn [world emit] in *. unfold w1 in *. clear w1.
  destruct (get_check_accounts api (world s) (Some target)) as [w r].
  cbn [fst snd] in *.
  assert (Hnone : match r with
                  | Objects l0 => Accounts.double_check target l0
                  | _ => None
                  end = None).
  { destruct r as [| |l0]; auto. now apply double_check_no_match. }
  destruct r as [| |l0]; [contradiction| |];
    rewrite ?Hnone;
    unfold bind at 1; unfold print at 1; rewrite Hdry;
    unfold Accounts.create;
    unfold bind at 1; unfold print at 1; unfold bind at 1; unfold call at 1;
    cbn [world emit];
    destruct (create_check_account api w target (Accounts.upper currency)
                identifier) as [w' r'];
    cbn [fst snd] in *;
    (destruct r' as [| |created]; [| |rewrite Hcreate]);
    unfold bind, print, die, ret, emit; cbn [world trace stdin];
    do 2 eexists; (split; [reflexivity|]); cbn [world trace stdin];
    (split;
     [rewrite !calls_app; cbn [calls flat_map app];
      rewrite !app_nil_r, <- !app_assoc; reflexivity|]);
    exists [Out (MLooking target); Call (GetCheckAccounts (Some target));
            Out (MNotFound target); Out (MCreating target);
            Call (CreateCheckAccount target (Accounts.upper currency)
                    identifier)];
    rewrite <- !app_assoc; reflexivity.
Qed.

(** X12.  The lookup by name is outside every [try]: when the account is
    neither in the account map nor cached with an identifier and that call
    raises, the resolution unwinds with the exception (no [die]), in
    simulation mode or not, and creates nothing. *)
Theorem lookup_exception_is_not_caught (self : Accounts.t)
  (identifier currency : string) (s : run W) :
  let target := Accounts._generate_account_name identifier currency in
  dict_get Accounts.key_eqb (identifier, currency) (Accounts.account_map self)
  = None ->
  dict_get String.eqb target (Accounts.sevdesk_accounts_by_name self) = None ->
  snd (get_check_accounts api (world s) (Some target)) = Raises ->
  exists s',
    Accounts.get_or_create_account_id api self identifier currency s
    = (Uncaught, s')
    /\ calls (trace s') = calls (trace s) ++ [GetCheckAccounts (Some target)].
Proof.
  intros target Hmap Hname Hr.
  unfold Accounts.get_or_create_account_id. fold target.
  rewrite Hmap, Hname.
  unfold bind at 1. unfold print at 1. unfold bind at 1. unfold call at 1.
  cbn [world emit].
  destruct (get_check_accounts api (world s) (Some target)) as [w r].
  cbn [snd] in Hr. subst r.
  eexists. split; [reflexivity|]. cbn [trace emit].
  rewrite !calls_app. cbn [calls flat_map app]. now rewrite !app_nil_r.
Qed.

(** X13.  When the first listing of the accounts raises, [main] ends with
    [die] before anything else: exit code 1, that listing the only call. *)
Theorem failed_listing_exits (fromisoformat_date : string -> option date)
  (a : args) (fuel : nat) (s : run W) :
  snd (get_check_accounts api (world s) None) = Raises ->
  exists s',
    main fromisoformat_date api a fuel s = (Exit 1, s')
    /\ trace s'
       = trace s
         ++ [Out MFetchingAccounts; Call (GetCheckAccounts None);
             Err (MError LoadFailed)].
Proof.
  intros Hr. unfold main, Accounts.__init__, Accounts._load_existing_accounts.
  unfold bind at 1. unfold bind at 1. unfold print at 1. unfold bind at 1.
  unfold call at 1. cbn [world emit].
  destruct (get_check_accounts api (world s) None) as [w r].
  cbn [snd] in Hr. subst r.
  unfold die, emit. cbn [world trace stdin].
  eexists. split; [reflexivity|]. cbn [trace].
  rewrite <- !app_assoc. reflexivity.
Qed.

End AccountFacts.

(** ** What simulation mode never does *)

Section ReadOnly.

Variable fromisoformat_date : string -> option date.
Variable W : Type.
Variable api : remote W.

Lemma keeps_ret (A : Type) (a : A) : keeps (ret a : M W A).
Proof. intros s. reflexivity. Qed.

Lemma keeps_stop (A : Type) (o : outcome A) : keeps (fun s : run W => (o, s)).
Proof. intros s. reflexivity. Qed.

Lemma keeps_emit (e : event) (s : run W) :
  (forall c, e = Call c -> mutating c = false) ->
  filter mutating (calls (trace (emit e s))) = filter mutating (calls (trace s)).
Proof.
  intros He. unfold emit. cbn [trace]. rewrite calls_app, filter_app.
  destruct e as [m|m|n|c]; cbn [calls flat_map app filter];
    rewrite ?app_nil_r; auto.
  now rewrite (He c eq_refl), app_nil_r.
Qed.

Lemma keeps_print (m : msg) : keeps (print m : M W unit).
Proof. intros s. apply keeps_emit. discriminate. Qed.

Lemma keeps_die (A : Type) (r : die_reason) : keeps (die r : M W A).
Proof. intros s. apply keeps_emit. discriminate. Qed.

Lemma keeps_call (A : Type) (c : api_call) (f : W -> W * A) :
  mutating c = false -> keeps (call c f).
Proof.
  intros Hc s. unfold call. destruct (f (world s)) as [w a]. cbn [snd trace].
  rewrite calls_app, filter_app. cbn [calls flat_map app filter].
  now rewrite Hc, app_nil_r.
Qed.

Lemma keeps_bind (A B : Type) (P : A -> Prop) (c : M W A) (k : A -> M W B) :
  keeps c ->
  (forall s a s', c s = (Ret a, s') -> P a) ->
  (forall a, P a -> keeps (k a)) ->
  keeps (bind c k).
Proof.
  intros Hc HP Hk s. unfold bind. specialize (Hc s).
  destruct (c s) as [[a|code| |] s'] eqn:E; cbn [snd] in *; auto.
  rewrite <- Hc. apply Hk. eapply HP. exact E.
Qed.

Lemma keeps_then (A B : Type) (c : M W A) (k : A -> M W B) :
  keeps c -> (forall a, keeps (k a)) -> keeps (bind c k).
Proof.
  intros Hc Hk. apply (@keeps_bind A B (fun _ => True)); auto.
Qed.

Lemma keeps_emit_all (evs : list event) :
  calls evs = [] -> keeps (emit_all evs : M W unit).
Proof.
  intros He s. unfold emit_all. cbn [snd trace].
  now rewrite calls_app, He, app_nil_r.
Qed.

Lemma keeps_ask (n : nat) : keeps (ask_for_confirmation n : M W bool).
Proof.
  intros s. unfold ask_for_confirmation.
  assert (H : forall lines, calls (snd (ask_lines n lines)) = []).
  { induction lines as [|l lines IH]; [reflexivity|].
    cbn [ask_lines].
    destruct (startswith "y" (normalise l)); [reflexivity|].
    destruct (startswith "n" (normalise l) || PyFloat.is_nil (normalise l));
      [reflexivity|].
    destruct (ask_lines n lines) as [[o rest'] evs]. exact IH. }
  specialize (H (stdin s)).
  destruct (ask_lines n (stdin s)) as [[o rest] evs]. cbn [snd trace] in *.
  now rewrite calls_app, H, app_nil_r.
Qed.

Lemma keeps_fetch_pages (fuel : nat) : forall account offset acc,
  keeps (fetch_pages api fuel account offset acc).
Proof.
  induction fuel as [|fuel IH]; intros account offset acc.
  - apply keeps_stop.
  - cbn [fetch_pages]. apply keeps_then; [now apply keeps_call|].
    intros [| |[|p ps]].
    + apply keeps_stop.
    + apply keeps_then; [apply keeps_print | intros; apply keeps_ret].
    + apply keeps_then; [apply keeps_print | intros; apply keeps_ret].
    + destruct (_ <? _)%nat; [apply keeps_ret | apply IH].
Qed.

Lemma keeps_fetch (fuel : nat) (account : Z) :
  keeps (get_all_account_transactions api fuel account).
Proof.
  unfold get_all_account_transactions.
  apply keeps_then; [apply keeps_print|]. intros _.
  apply keeps_then; [apply keeps_fetch_pages|]. intros l.
  apply keeps_then; [apply keeps_print | intros; apply keeps_ret].
Qed.

Lemma keeps_load (self : Accounts.t) :
  keeps (Accounts._load_existing_accounts api self).
Proof.
  unfold Accounts._load_existing_accounts.
  apply keeps_then; [apply keeps_print|]. intros _.
  apply keeps_then; [now apply keeps_call|].
  intros [| |l].
  - apply keeps_die.
  - apply keeps_then; [apply keeps_print | intros; apply keeps_ret].
  - apply keeps_then; [apply keeps_print | intros; apply keeps_ret].
Qed.

Lemma load_returns_mode (self self' : Accounts.t) (s s' : run W) :
  Accounts._load_existing_accounts api self s = (Ret self', s') ->
  Accounts.dry_run self' = Accounts.dry_run self.
Proof.
  unfold Accounts._load_existing_accounts.
  unfold bind at 1. unfold print at 1. unfold bind at 1. unfold call at 1.
  destruct (get_check_accounts api _ None) as [w r].
  destruct r as [| |l]; unfold bind, print, die, ret.
  - discriminate.
  - intros H. now injection H as <- _.
  - intros H. injection H as <- _. apply load_keeps_mode.
Qed.

Lemma keeps_resolve (self : Accounts.t) (identifier currency : string) :
  Accounts.dry_run self = true ->
  keeps (Accounts.get_or_create_account_id api self identifier currency).
Proof.
  intros Hdry. unfold Accounts.get_or_create_account_id.
  destruct (dict_get Accounts.key_eqb _ _); [apply keeps_ret|].
  apply keeps_then; [apply keeps_print|]. intros _.
  destruct (match dict_get String.eqb _ _ with
            | Some existing_account => Accounts.truthy_id existing_account
            | None => None
            end).
  - apply keeps_then; [apply keeps_print | intros; apply keeps_ret].
  - apply keeps_then; [now apply keeps_call|].
    assert (Hnot : keeps (print (MNotFound
                                   (Accounts._generate_account_name identifier
                                      currency)) ;;;
                          (if Accounts.dry_run self
                           then print MDryRunWouldCreate ;;; die DryRunNoAccount
                           else Accounts.create api self identifier currency
                                  (Accounts._generate_account_name identifier
                                     currency))
                          : M W (Z * Accounts.t))).
    { apply keeps_then; [apply keeps_print|]. intros _. rewrite Hdry.
      apply keeps_then; [apply keeps_print | intros; apply keeps_die]. }
    intros [| |l].
    + apply keeps_stop.
    + exact Hnot.
    + destruct (Accounts.double_check _ l) as [[i obj]|]; [|exact Hnot].
      apply keeps_then; [apply keeps_print | intros; apply keeps_ret].
Qed.

Lemma keeps_gate_dry (ids : list Z) : keeps (execution_gate api true ids).
Proof.
  unfold execution_gate. destruct ids as [|i ids]; [apply keeps_print|].
  apply keeps_then; [apply keeps_print | intros; apply keeps_print].
Qed.

Lemma keeps_reconcile_dry (transactions : list Tx.t) :
  keeps (reconcile fromisoformat_date api true transactions).
Proof.
  unfold reconcile.
  pose proof (grouping_log_quiet fromisoformat_date transactions) as Hq.
  destruct (find_duplicate_transactions fromisoformat_date transactions)
    as [duplicate_groups log]. cbn [snd] in Hq.
  apply keeps_then; [apply keeps_emit_all; now apply quiet_calls|]. intros _.
  apply keeps_then; [apply keeps_emit_all, analyse_no_call|]. intros _.
  apply keeps_gate_dry.
Qed.

(** X14.  In simulation mode [main] never issues a call that changes the
    remote ledger: whatever the remote answers, whatever the input and
    however many pages are fetched, the run adds no account creation and no
    deletion to the calls. *)
Theorem simulation_never_mutates (a : args) (fuel : nat) (s : run W) :
  args_dry_run a = true ->
  filter mutating (calls (trace (snd (main fromisoformat_date api a fuel s))))
  = filter mutating (calls (trace s)).
Proof.
  intros Hdry. revert s. change (keeps (main fromisoformat_date api a fuel)).
  unfold main, Accounts.__init__. rewrite Hdry.
  apply (@keeps_bind _ _ (fun self => Accounts.dry_run self = true)).
  - apply keeps_load.
  - intros s self s' H. now apply load_returns_mode in H.
  - intros self Hself.
    apply keeps_then; [now apply keeps_resolve|]. intros r.
    apply keeps_then; [apply keeps_print|]. intros _.
    apply keeps_then; [apply keeps_fetch|]. intros [|t l].
    + apply keeps_print.
    + apply keeps_reconcile_dry.
Qed.

End ReadOnly.

(** ** What the grouping keeps *)

Section GroupingFacts.

Variable fromisoformat_date : string -> option date.

Abbreviation key_of := (tx_key fromisoformat_date).
Abbreviation grouping_of := (group_all fromisoformat_date).
Abbreviation groups_of :=
  (fun transactions => grouped_transactions (grouping_of transactions)).
Abbreviation duplicate_groups :=
  (fun transactions =>
     fst (find_duplicate_transactions fromisoformat_date transactions)).

Lemma members_append_to (k : key) (tx : Tx.t) (G : groups) :
  Permutation (members (append_to k tx G)) (tx :: members G).
Proof.
  destruct (append_to_spec k tx G)
    as [(G1 & k0 & l0 & G2 & -> & _ & ->)|[_ ->]]; unfold members.
  - rewrite !flat_map_app. cbn [flat_map snd].
    rewrite <- (app_assoc l0 [tx]). cbn [app].
    rewrite (app_assoc (flat_map snd G1) l0 (tx :: flat_map snd G2)).
    rewrite (app_assoc (flat_map snd G1) l0 (flat_map snd G2)).
    apply Permutation_sym, Permutation_middle.
  - rewrite flat_map_app. cbn [flat_map snd app].
    apply Permutation_sym, Permutation_cons_append.
Qed.

Lemma grouped_is_regroup (l : list Tx.t) : forall st,
  grouped_transactions (fold_left (group_step fromisoformat_date) l st)
  = regroup fromisoformat_date l (grouped_transactions st).
Proof.
  unfold regroup.
  induction l as [|tx l IH]; intros st; cbn [fold_left]; [reflexivity|].
  rewrite IH. f_equal. unfold group_step. destruct (key_of tx); reflexivity.
Qed.

Lemma members_regroup (l : list Tx.t) : forall G,
  Permutation (members (regroup fromisoformat_date l G))
    (members G ++ filter (is_keyed fromisoformat_date) l).
Proof.
  unfold regroup, is_keyed.
  induction l as [|tx l IH]; intros G; cbn [fold_left filter].
  - now rewrite app_nil_r.
  - rewrite IH. destruct (key_of tx) as [| |k]; try reflexivity.
    rewrite members_append_to. apply Permutation_middle.
Qed.

Lemma skipped_is_unkeyed (l : list Tx.t) : forall st,
  skipped_count (fold_left (group_step fromisoformat_date) l st)
  = (skipped_count st
     + List.length (filter (fun tx => negb (is_keyed fromisoformat_date tx)) l))%nat.
Proof.
  unfold is_keyed.
  induction l as [|tx l IH]; intros st; cbn [fold_left filter]; [simpl; lia|].
  rewrite IH. unfold group_step.
  destruct (key_of tx); simpl; lia.
Qed.


Lemma nothing_is_dropped_perm (transactions : list Tx.t) :
  Permutation (members (groups_of transactions))
    (filter (is_keyed fromisoformat_date) transactions).
Proof.
  unfold group_all. rewrite grouped_is_regroup.
  apply (members_regroup transactions []).
Qed.


Lemma errors_log (l : list Tx.t) : forall st,
  flat_map errors
    (grouping_log (fold_left (group_step fromisoformat_date) l st))
  = flat_map errors (grouping_log st)
    ++ flat_map (skip_line fromisoformat_date) l.
Proof.
  unfold skip_line.
  induction l as [|tx l IH]; intros st; cbn [fold_left flat_map].
  - now rewrite app_nil_r.
  - rewrite IH. unfold group_step.
    destruct (key_of tx); cbn [grouping_log];
      rewrite ?flat_map_app; cbn [flat_map errors app];
      rewrite <- ?app_assoc; reflexivity.
Qed.

(** X16.  Every transaction that is skipped is reported on stderr, once and
    in the order of the input, and the skipped count is the number of these
    lines; a transaction that is grouped is not reported.  The line shows
    [tx.id or 'N/A'], which is N/A for the identifier 0.  A date or an
    amount that is [None] gives the line of the missing data; a date or an
    amount that is there and is refused by its parser, as the text of an
    unset field is, gives the line of the parsing error, with the date and
    the amount. *)
Theorem skips_are_logged (transactions : list Tx.t) :
  flat_map errors
    (snd (find_duplicate_transactions fromisoformat_date transactions))
  = flat_map (skip_line fromisoformat_date) transactions
  /\ skipped_count (grouping_of transactions)
     = List.length (flat_map (skip_line fromisoformat_date) transactions)
  /\ (forall tx,
        Tx.entry_date tx = None \/ Tx.amount tx = None ->
        skip_line fromisoformat_date tx
        = [Err (MSkipMissing
                  (if (Tx.id tx =? 0)%Z then None else Some (Tx.id tx)))])
  /\ (forall tx d a,
        Tx.entry_date tx = Some d -> Tx.amount tx = Some a ->
        fromisoformat_date d = None \/ PyFloat.float_of_string a = None ->
        skip_line fromisoformat_date tx
        = [Err (MSkipUnparsable
                  (if (Tx.id tx =? 0)%Z then None else Some (Tx.id tx))
                  (Some d) (Some a))])
  /\ (forall tx,
        is_keyed fromisoformat_date tx = true ->
        skip_line fromisoformat_date tx = []).
Proof.
  split; [|split; [|split; [|split]]]; cycle 2.
  - intros tx H. unfold skip_line, tx_key, id_or_na.
    destruct H as [-> | ->]; [reflexivity|].
    destruct (Tx.entry_date tx); reflexivity.
  - intros tx d a Hd Ha H. unfold skip_line, tx_key, id_or_na.
    rewrite Hd, Ha. destruct H as [-> | H]; [reflexivity|].
    rewrite H. destruct (fromisoformat_date d); reflexivity.
  - intros tx. unfold is_keyed, skip_line.
    destruct (key_of tx); [discriminate|discriminate|reflexivity].
  - unfold find_duplicate_transactions. cbn [snd].
    rewrite flat_map_app. cbn [flat_map errors app]. rewrite app_nil_r.
    assert (Hlog : flat_map errors (grouping_log (grouping_of transactions))
                   = flat_map (skip_line fromisoformat_date) transactions).
    { unfold group_all. now rewrite errors_log. }
    destruct (0 <? _)%nat; [|exact Hlog].
    rewrite flat_map_app. cbn [flat_map errors app]. now rewrite app_nil_r.
  - unfold group_all. rewrite skipped_is_unkeyed. cbn [skipped_count plus].
    unfold is_keyed, skip_line.
    induction transactions as [|tx l IH]; [reflexivity|].
    cbn [filter flat_map]. rewrite length_app, <- IH.
    destruct (key_of tx); reflexivity.
Qed.

(** X17.  A transaction whose amount reads as [nan] has a key that equals
    no key, its own included: it is not skipped, and it is in no group of
    two or more, so it is never compared with another transaction. *)
Theorem nan_amount_is_alone (transactions : list Tx.t) (tx : Tx.t) (d : date) :
  key_of tx = Keyed (d, PyFloat.Nan) ->
  is_keyed fromisoformat_date tx = true
  /\ forall k g, In (k, g) (duplicate_groups transactions) -> ~ In tx g.
Proof.
  intros Hk. split; [unfold is_keyed; now rewrite Hk|].
  intros k g Hg Hin.
  destruct (duplicate_group_members fromisoformat_date _ _ _ Hg) as [-> _].
  apply filter_In in Hin as [_ Hin]. unfold has_key in Hin. rewrite Hk in Hin.
  unfold key_eqb in Hin. cbn [snd] in Hin.
  destruct (snd k); rewrite andb_false_r in Hin; discriminate.
Qed.

(** Keeping some of the transactions keeps their identifiers different. *)
Lemma kept_ids_differ (keep : Tx.t -> bool) (txs : list Tx.t) :
  NoDup (map Tx.id txs) -> NoDup (map Tx.id (filter keep txs)).
Proof.
  intros H. induction txs as [|t txs IH]; cbn [filter map]; [constructor|].
  cbn [map] in H. apply NoDup_cons_iff in H as [Ht Hrest].
  destruct (keep t); [|now apply IH].
  cbn [map]. apply NoDup_cons; [|now apply IH].
  intros Hin. apply Ht. apply in_map_iff in Hin as (u & Hu & Hin).
  apply filter_In in Hin as [Hin _]. apply in_map_iff. now exists u.
Qed.

Lemma NoDup_app_disjoint (A : Type) (l1 l2 : list A) (a : A) :
  NoDup (l1 ++ l2) -> In a l1 -> ~ In a l2.
Proof.
  induction l1 as [|x l1 IH]; intros H Hin; [contradiction|].
  cbn [app] in H. inversion H as [|y l' Hx Hl]; subst.
  destruct Hin as [->|Hin]; [|auto].
  intros Ha. apply Hx. apply in_or_app. now right.
Qed.

Lemma group_plan_in (g : list Tx.t) (x : Z) :
  In x (group_plan g) -> In x (map Tx.id g).
Proof.
  unfold group_plan. destruct (earliest_tx g) as [e|]; [|contradiction].
  intros H. apply in_map_iff in H as (m & Hm & Hin).
  apply filter_In in Hin as [Hin _]. apply in_map_iff. eauto.
Qed.

Lemma plan_nodup_groups (G : groups) :
  NoDup (map Tx.id (members G)) ->
  NoDup (flat_map (fun g => group_plan (snd g)) (filter more_than_one G))
  /\ forall x,
       In x (flat_map (fun g => group_plan (snd g)) (filter more_than_one G)) ->
       In x (map Tx.id (members G)).
Proof.
  induction G as [|[k l] G IH]; intros H.
  - split; [constructor|intros x []].
  - unfold members in *. cbn [flat_map snd] in H. rewrite map_app in H.
    destruct (IH (NoDup_app_remove_l _ _ H)) as [Hn Hin].
    assert (Hincl : forall x,
              In x (flat_map (fun g => group_plan (snd g))
                      (filter more_than_one ((k, l) :: G))) ->
              In x (map Tx.id l ++ map Tx.id (flat_map snd G))).
    { intros x Hx. cbn [filter] in Hx. apply in_or_app.
      destruct (more_than_one (k, l)); [|right; auto].
      cbn [flat_map snd] in Hx. apply in_app_or in Hx as [Hx|Hx]; [|right; auto].
      left. now apply group_plan_in. }
    split.
    + cbn [filter]. destruct (more_than_one (k, l)); [|exact Hn].
      cbn [flat_map snd]. apply NoDup_app; [|exact Hn|].
      * unfold group_plan. destruct (earliest_tx l); [|constructor].
        apply kept_ids_differ. now apply NoDup_app_remove_r in H.
      * intros x Hx Hx'. apply group_plan_in in Hx.
        apply (@NoDup_app_disjoint _ _ _ x H Hx). auto.
    + intros x Hx. cbn [flat_map snd]. rewrite map_app. auto.
Qed.

(** X18.  When the identifiers of the input are pairwise different, so are
    those of the plan: no transaction is scheduled for deletion twice. *)
Theorem plan_has_no_repetition (transactions : list Tx.t) :
  NoDup (map Tx.id transactions) ->
  NoDup (plan fromisoformat_date transactions).
Proof.
  intros H. rewrite plan_by_groups.
  unfold find_duplicate_transactions. cbn [fst].
  apply plan_nodup_groups.
  pose proof (nothing_is_dropped_perm transactions) as Hp.
  apply (Permutation_NoDup (Permutation_sym (Permutation_map Tx.id Hp))).
  now apply kept_ids_differ.
Qed.

Lemma append_to_new (k : key) (tx : Tx.t) (G : groups) :
  (forall k' l', In (k', l') G -> key_eqb k' k = false) ->
  append_to k tx G = G ++ [(k, [tx])].
Proof.
  intros Hnone.
  destruct (append_to_spec k tx G)
    as [(G1 & k0 & l0 & G2 & -> & Hk & _)|[_ H]]; [|exact H].
  rewrite (Hnone k0 l0) in Hk; [discriminate|].
  apply in_or_app. right. now left.
Qed.

Lemma append_to_last (k kt : key) (tx : Tx.t) (cur : list Tx.t) (G : groups) :
  (forall k' l', In (k', l') G -> key_eqb k' kt = false) ->
  key_eqb k kt = true ->
  append_to kt tx (G ++ [(k, cur)]) = G ++ [(k, cur ++ [tx])].
Proof.
  intros Hnone Hk. induction G as [|[k' l'] G IH]; cbn [app append_to].
  - now rewrite Hk.
  - rewrite (Hnone k' l') by now left.
    rewrite IH; [reflexivity|]. intros k'' l'' H. apply (Hnone k'' l''). now right.
Qed.

Lemma group_all_headed (transactions : list Tx.t) :
  headed fromisoformat_date (groups_of transactions).
Proof.
  induction transactions as [|tx p IH] using rev_ind.
  - intros k l [].
  - rewrite groups_snoc. destruct (key_of tx) as [| |kt] eqn:Hkt; auto.
    destruct (append_to_spec kt tx (groups_of p))
      as [(G1 & k0 & l0 & G2 & HG & Hk0 & ->)|[_ ->]].
    + rewrite HG in IH. intros k l Hin.
      apply in_app_or in Hin as [Hin|[Hin|Hin]].
      * apply IH, in_or_app. now left.
      * injection Hin as <- <-.
        destruct (IH k0 l0) as (m0 & l' & -> & Hm0 & Hl');
          [apply in_or_app; right; now left|].
        exists m0, (l' ++ [tx]). repeat split; auto.
        intros m Hm. apply in_app_or in Hm as [Hm|[<-|[]]]; eauto.
      * apply IH, in_or_app. right. now right.
    + intros k l Hin. apply in_app_or in Hin as [Hin|[Hin|[]]]; [now apply IH|].
      injection Hin as <- <-. exists tx, []. repeat split; auto.
      intros m [].
Qed.

(** Going through the members of one group rebuilds that group at the end
    of the groups. *)
Lemma regroup_group (k : key) (G0 : groups) (l' : list Tx.t) : forall cur,
  (forall k0 l0, In (k0, l0) G0 -> key_eqb k0 k = false) ->
  (forall m, In m l' -> exists k', key_of m = Keyed k' /\ key_eqb k k' = true) ->
  regroup fromisoformat_date l' (G0 ++ [(k, cur)]) = G0 ++ [(k, cur ++ l')].
Proof.
  unfold regroup.
  induction l' as [|m l' IH]; intros cur Hnone Hl'; cbn [fold_left].
  - now rewrite app_nil_r.
  - destruct (Hl' m (or_introl eq_refl)) as (k' & Hm & Hk). rewrite Hm.
    rewrite append_to_last; auto.
    + rewrite IH; auto.
      * now rewrite <- app_assoc.
      * intros m' Hm'. apply Hl'. now right.
    + intros k0 l0 H0. destruct (key_eqb k0 k') eqn:E; [|reflexivity].
      rewrite <- (Hnone k0 l0 H0). symmetry.
      eapply key_eqb_trans; [exact E|]. now rewrite key_eqb_sym.
Qed.

Lemma regroup_members (G : groups) : forall G0,
  headed fromisoformat_date G ->
  distinct (map fst G) ->
  (forall k0 l0 k l, In (k0, l0) G0 -> In (k, l) G -> key_eqb k0 k = false) ->
  regroup fromisoformat_date (members G) G0 = G0 ++ G.
Proof.
  induction G as [|[k l] G IH]; intros G0 Hh Hd Hsep.
  - cbn. now rewrite app_nil_r.
  - destruct (Hh k l (or_introl eq_refl)) as (m0 & l' & -> & Hm0 & Hl').
    destruct Hd as [Hk Hd].
    unfold members. cbn [flat_map snd].
    unfold regroup. rewrite fold_left_app. cbn [fold_left]. rewrite Hm0.
    rewrite append_to_new
      by (intros k0 l0 H0; apply (Hsep k0 l0 k (m0 :: l') H0); now left).
    fold (regroup fromisoformat_date l' (G0 ++ [(k, [m0])])).
    rewrite regroup_group; auto.
    2:{ intros k0 l0 H0. apply (Hsep k0 l0 k (m0 :: l') H0). now left. }
    fold (members G).
    fold (regroup fromisoformat_date (members G) (G0 ++ [(k, [m0] ++ l')])).
    rewrite IH; auto.
    + now rewrite <- app_assoc.
    + intros k1 l1 H1. apply Hh. now right.
    + intros k0 l0 k1 l1 H0 H1. apply in_app_or in H0 as [H0|[H0|[]]].
      * apply (Hsep k0 l0 k1 l1 H0). now right.
      * injection H0 as <- _. apply (Hk k1). now apply (in_map fst) in H1.
Qed.

(** X19.  Grouping is idempotent: grouping the members of the groups of an
    input, taken group after group, gives the same groups in the same order,
    hence the same groups of two or more and the same plan. *)
Theorem regrouping_changes_nothing (transactions : list Tx.t) :
  let again := members (groups_of transactions) in
  groups_of again = groups_of transactions
  /\ duplicate_groups again = duplicate_groups transactions
  /\ plan fromisoformat_date again = plan fromisoformat_date transactions.
Proof.
  intros again.
  assert (H : groups_of again = groups_of transactions).
  { unfold again. unfold group_all at 1. rewrite grouped_is_regroup.
    cbn [grouped_transactions].
    rewrite regroup_members; [reflexivity| | |intros ? ? ? ? []].
    - apply group_all_headed.
    - apply (group_all_grouped fromisoformat_date transactions). }
  assert (Hd : duplicate_groups again = duplicate_groups transactions).
  { unfold find_duplicate_transactions. cbn [fst]. now rewrite H. }
  repeat split; auto. unfold plan. now rewrite Hd.
Qed.

End GroupingFacts.

(** ** The analysis and the rules *)

Section AnalysisFacts.

Lemma counter_step (e : Tx.t) (st : analysis) (m : Tx.t) :
  specific_duplicates_found st = List.length (transactions_to_delete_ids st) ->
  specific_duplicates_found (classify_step e st m)
  = List.length (transactions_to_delete_ids (classify_step e st m)).
Proof.
  intros H. unfold classify_step.
  destruct (Tx.create m >? Tx.create e)%Z; [|exact H].
  destruct (card_rule m).
  - cbn [specific_duplicates_found transactions_to_delete_ids].
    rewrite length_app, H. simpl. lia.
  - destruct (purpose_rule m e); [|exact H].
    cbn [specific_duplicates_found transactions_to_delete_ids].
    rewrite length_app, H. simpl. lia.
Qed.

(** X20.  The counter of the analysis and the plan go together:
    [specific_duplicates_found] is the number of identifiers in the plan,
    whatever the groups. *)
Theorem counter_is_plan_length (G : groups) :
  specific_duplicates_found (analyse G)
  = List.length (transactions_to_delete_ids (analyse G)).
Proof.
  assert (Hc : forall l e st,
            specific_duplicates_found st
            = List.length (transactions_to_delete_ids st) ->
            specific_duplicates_found (fold_left (classify_step e) l st)
            = List.length
                (transactions_to_delete_ids (fold_left (classify_step e) l st))).
  { induction l as [|m l IH]; intros e st H; cbn [fold_left]; [exact H|].
    apply IH. now apply counter_step. }
  assert (Hg : forall G st,
            specific_duplicates_found st
            = List.length (transactions_to_delete_ids st) ->
            specific_duplicates_found (fold_left analyse_group G st)
            = List.length
                (transactions_to_delete_ids (fold_left analyse_group G st))).
  { clear G. induction G as [|g G IH]; intros st H; cbn [fold_left]; [exact H|].
    apply IH. unfold analyse_group.
    destruct (earliest_tx (snd g)); [now apply Hc | exact H]. }
  destruct G as [|g G']; [reflexivity|].
  unfold analyse. now apply Hg.
Qed.

(** X21.  The card rule looks for its pattern anywhere in the purpose: when
    it holds for a purpose it holds for every purpose that contains that
    one, whatever comes before and after. *)
Theorem card_rule_looks_anywhere (m m' : Tx.t) (before rest : list ascii) :
  text (purpose_str m') = before ++ text (purpose_str m) ++ rest ->
  card_rule m = true ->
  card_rule m' = true.
Proof.
  unfold card_rule, text. intros Heq H.
  apply search_spec in H as (b & u & r & Hs & Hu).
  apply search_spec. exists (before ++ b), u, (r ++ rest). split; [|exact Hu].
  rewrite Heq, Hs. now rewrite <- !app_assoc.
Qed.

End AnalysisFacts.

(** ** Whole runs *)

Section Runs.

Variable fromisoformat_date : string -> option date.
Variable W : Type.
Variable api : remote W.

Abbreviation plan_of := (plan fromisoformat_date).

(** What [reconcile] prints before the gate. *)
Lemma reconcile_report (dry : bool) (transactions : list Tx.t) (s : run W) :
  exists report,
    calls report = []
    /\ reconcile fromisoformat_date api dry transactions s
       = execution_gate api dry (plan_of transactions)
           {| world := world s; trace := trace s ++ report; stdin := stdin s |}.
Proof.
  unfold plan, reconcile.
  pose proof (grouping_log_quiet fromisoformat_date transactions) as Hq.
  destruct (find_duplicate_transactions fromisoformat_date transactions)
    as [duplicate_groups log]. cbn [fst snd] in *.
  exists (log ++ analysis_log (analyse duplicate_groups)). split.
  - now rewrite calls_app, (quiet_calls Hq), analyse_no_call.
  - unfold bind, emit_all. cbn [world trace stdin].
    now rewrite <- app_assoc.
Qed.

(** X22.  When the plan is empty, in simulation mode or not, the run says
    that nothing is marked for deletion and returns: it asks nothing, reads
    no input, issues no call and leaves the ledger as it was. *)
Theorem empty_plan_asks_nothing (dry : bool) (transactions : list Tx.t)
  (s : run W) :
  plan_of transactions = [] ->
  exists report,
    reconcile fromisoformat_date api dry transactions s
    = (Ret tt,
       {| world := world s;
          trace := trace s ++ report ++ [Out MNothingMarked];
          stdin := stdin s |})
    /\ calls report = [].
Proof.
  intros Hp. destruct (reconcile_report dry transactions s) as (report & Hc & ->).
  exists report. split; [|exact Hc].
  rewrite Hp. unfold execution_gate, print, emit. cbn [world trace stdin].
  now rewrite <- app_assoc.
Qed.

Lemma plan_of_nothing : plan_of [] = [].
Proof. reflexivity. Qed.


End Runs.

(** * The properties on sample inputs *)

Section Examples.

Import Sample.
Local Open Scope Z_scope.
Local Open Scope string_scope.
Local Open Scope list_scope.

Abbreviation groups_of :=
  (fun transactions => fst (find_duplicate_transactions IsoDate.parse transactions)).
Abbreviation plan_of := (plan IsoDate.parse).

(** C1, the claim fails.  The card record was created first: it is the
    canonical record of the group of two, and the plan is empty. *)
Lemma card_created_first_is_not_flagged :
  groups_of card_first = [(key_of (card 100), card_first)]
  /\ card_rule (card 100) = true
  /\ card_rule (rent 200) = false
  /\ earliest_tx card_first = Some (card 100)
  /\ ~ In (Tx.id (card 100)) (plan_of card_first).
Proof.
  vm_compute. repeat split; auto.
Qed.

Lemma card_member_flagged_when_later_witness :
  plan_of [card 200; rent 100] = [1] /\ plan_of [rent 100; card 200] = [1].
Proof.
  apply (@card_member_flagged_when_later IsoDate.parse (card 200) (rent 100)
           (key_of (card 200)) (key_of (rent 100)));
    vm_compute; reflexivity.
Defined.

(** C2, the claim fails.  Two amounts that are different decimals round to
    the same float, and the two transactions share a group. *)
Lemma different_decimals_share_a_group :
  PyFloat.decimal_of_string "0.1" = Some (1 # 10)%Q
  /\ PyFloat.decimal_of_string "0.10000000000000001"
     = Some (10000000000000001 # 100000000000000000)%Q
  /\ ~ ((1 # 10) == (10000000000000001 # 100000000000000000))%Q
  /\ groups_of close_amounts = [(key_of (tenth 1 "0.1"), close_amounts)].
Proof.
  repeat split; try (vm_compute; reflexivity).
  unfold Qeq. simpl. discriminate.
Qed.

Lemma amounts_are_compared_as_floats_witness :
  (forall q1 q2,
      PyFloat.decimal_of_string "42.0" = Some q1 ->
      PyFloat.decimal_of_string "4.2e1" = Some q2 ->
      (q1 == q2)%Q ->
      exists k g,
        In (k, g) (groups_of ([] ++ tenth 1 "42.0" :: [] ++ tenth 2 "4.2e1" :: []))
        /\ In (tenth 1 "42.0") g /\ In (tenth 2 "4.2e1") g)
  /\ (forall f1 f2,
        PyFloat.float_of_string "42.0" = Some f1 ->
        PyFloat.float_of_string "4.2e1" = Some f2 ->
        ((exists k g,
            In (k, g)
              (groups_of ([] ++ tenth 1 "42.0" :: [] ++ tenth 2 "4.2e1" :: []))
            /\ In (tenth 1 "42.0") g /\ In (tenth 2 "4.2e1") g)
         <-> PyFloat.float_eqb f1 f2 = true)).
Proof.
  apply (@amounts_are_compared_as_floats IsoDate.parse [] [] []
           (tenth 1 "42.0") (tenth 2 "4.2e1")
           "2024-03-01" "2024-03-01" "42.0" "4.2e1" day);
    reflexivity.
Defined.

(** C3, the claim fails.  The second record was created together with the
    canonical one and has its purpose, and it is not in the plan. *)
Lemma member_created_with_canonical_is_not_classified :
  groups_of tied = [(key_of (coffee 3 100), tied)]
  /\ earliest_tx tied = Some (coffee 3 100)
  /\ purpose_rule (coffee 4 100) (coffee 3 100) = true
  /\ ~ In (Tx.id (coffee 4 100)) (plan_of tied).
Proof.
  vm_compute. repeat split; auto.
Qed.

Lemma later_members_are_classified_witness :
  exists c,
    earliest_tx three_coffees = Some c
    /\ forall st,
         transactions_to_delete_ids
           (analyse_group st (key_of (coffee 3 100), three_coffees))
         = transactions_to_delete_ids st
           ++ map Tx.id
                (filter (fun m => (Tx.create m >? Tx.create c)
                                  && (card_rule m || purpose_rule m c))
                   three_coffees).
Proof.
  apply (@later_members_are_classified IsoDate.parse three_coffees).
  vm_compute. left. reflexivity.
Defined.

(** C4, the claim fails.  A purpose with a code of two letters is not of
    the three-letter shape, and the rule fires for it. *)
Lemma two_letter_code_fires :
  card_rule card_us = true
  /\ ~ card_shape three_letter_code (text (purpose_str card_us))
  /\ plan_of [lunch; card_us] = [Tx.id card_us].
Proof.
  split; [vm_compute; reflexivity|]. split; [|vm_compute; reflexivity].
  rewrite <- (@card_re_shape three_upper three_letter_code matches_three_upper).
  vm_compute. discriminate.
Qed.

Lemma card_rule_fires_witness :
  transactions_to_delete_ids (classify_step lunch (analyse []) card_us)
  = transactions_to_delete_ids (analyse []) ++ [7]
  /\ card_shape upper_code (text (purpose_str card_arabic))
  /\ transactions_to_delete_ids (classify_step lunch (analyse []) card_arabic)
     = transactions_to_delete_ids (analyse []) ++ [13].
Proof.
  split; [|split].
  - apply (proj2 (card_rule_fires card_us) lunch (analyse [])).
    + vm_compute. reflexivity.
    + vm_compute. reflexivity.
  - apply (proj1 (card_rule_fires card_arabic)). vm_compute. reflexivity.
  - apply (proj2 (card_rule_fires card_arabic) lunch (analyse [])).
    + vm_compute. reflexivity.
    + vm_compute. reflexivity.
Defined.

Lemma canonical_is_first_earliest_witness :
  late_first = filter (has_key IsoDate.parse (key_of (coffee 3 100))) late_first
  /\ exists pre c post,
       late_first = pre ++ c :: post
       /\ earliest_tx late_first = Some c
       /\ (forall m, In m pre -> Tx.create c < Tx.create m)
       /\ (forall m, In m post -> Tx.create c <= Tx.create m).
Proof.
  apply (@canonical_is_first_earliest IsoDate.parse late_first).
  vm_compute. left. reflexivity.
Defined.

Lemma plan_sound_witness :
  exists k g c m,
    In (k, g) (groups_of coffees)
    /\ (2 <= List.length g)%nat
    /\ earliest_tx g = Some c
    /\ In m g /\ Tx.id m = 4
    /\ Tx.id c <> 4.
Proof.
  apply (@plan_sound IsoDate.parse coffees 4).
  - simpl. intros a b [<-|[<-|[]]] [<-|[<-|[]]]; simpl; intros H;
      try reflexivity; discriminate.
  - vm_compute. left. reflexivity.
Defined.


Lemma deletion_isolation_witness :
  exists s' body,
    execution_gate (ledger [5] [] []) false [4; 5; 6]
      (start [4; 5; 6; 7] ["y"])
    = (Ret tt, s')
    /\ calls (trace s')
       = calls (trace (start [4; 5; 6; 7] ["y"]))
         ++ map DeleteTransaction [4; 5; 6]
    /\ trace s'
       = trace (start [4; 5; 6; 7] ["y"]) ++ body
         ++ [Out MSummary; Out (MSummaryDeleted (List.length [4; 5; 6] - 1));
             Out (MSummaryFailed 1)].
Proof.
  apply (@deletion_isolation (list Z) (ledger [5] [] []) [4; 5; 6] 5
           (start [4; 5; 6; 7] ["y"]) "y" []).
  - reflexivity.
  - intros w. reflexivity.
  - intros w i Hi. simpl. destruct (Z.eqb_spec i 5); [contradiction|reflexivity].
  - reflexivity.
  - reflexivity.
Defined.

Lemma dry_run_issues_no_call_witness :
  exists report,
    reconcile IsoDate.parse (ledger [] [] coffees) true coffees
      (start [3; 4] ["y"])
    = (Ret tt,
       {| world := world (start [3; 4] ["y"]);
          trace := trace (start [3; 4] ["y"]) ++ report
                   ++ [Out MDeletionConfirmation;
                       Out (MDryRunPlan (List.length (plan_of coffees)))];
          stdin := stdin (start [3; 4] ["y"]) |})
    /\ calls report = []
    /\ flat_map reported report = plan_of coffees.
Proof.
  apply (@dry_run_issues_no_call IsoDate.parse (list Z)
           (ledger [] [] coffees) coffees (start [3; 4] ["y"])).
  vm_compute. discriminate.
Defined.

Lemma dry_run_without_account_exits_witness :
  exists s' head,
    main IsoDate.parse (ledger [] [] coffees) dry_args 5 (start [] [])
    = (Exit 1, s')
    /\ trace s'
       = trace (start [] []) ++ head
         ++ [Out (MNotFound "Wise (EUR, BE00)"); Out MDryRunWouldCreate;
             Err (MError DryRunNoAccount)]
    /\ calls (trace s')
       = calls (trace (start [] []))
         ++ [GetCheckAccounts None; GetCheckAccounts (Some "Wise (EUR, BE00)")].
Proof.
  apply (@dry_run_without_account_exits IsoDate.parse (list Z)
           (ledger [] [] coffees) dry_args 5 (start [] [])).
  - reflexivity.
  - intros w name. simpl. intros a [].
Defined.






Lemma pages_are_reassembled_witness :
  exists s',
    get_all_account_transactions (server [] [] coffees) 1 11 (start [3; 4] [])
    = (Ret coffees, s')
    /\ world s' = world (start [3; 4] [])
    /\ stdin s' = stdin (start [3; 4] [])
    /\ calls (trace s')
       = calls (trace (start [3; 4] []))
         ++ map (fun k => GetTransactions 11
                            (Z.of_nat (TRANSACTION_FETCH_LIMIT * k)))
              (seq 0 (S (List.length coffees / TRANSACTION_FETCH_LIMIT))).
Proof.
  apply (@pages_are_reassembled (list Z) (server [] [] coffees) 11 coffees).
  - intros w off. reflexivity.
  - vm_compute. lia.
Defined.

Lemma full_pages_never_end_witness :
  fst (get_all_account_transactions endless 3 11 (start [] [])) = Unfinished.
Proof.
  apply (@full_pages_never_end (list Z) endless 11 3 (start [] [])).
  intros w o. exists (repeat (coffee 3 100) TRANSACTION_FETCH_LIMIT).
  split; [reflexivity|]. rewrite repeat_length. lia.
Defined.

Lemma resolution_is_remembered_witness :
  Accounts.get_or_create_account_id (server [] [wise_account] []) resolved
    "BE00" "EUR" (start [] ["y"])
  = (Ret (11, resolved), start [] ["y"]).
Proof.
  apply (@resolution_is_remembered (list Z) (server [] [wise_account] [])
           (no_accounts false) resolved "BE00" "EUR" (start [] [])
           (snd (Accounts.get_or_create_account_id
                   (server [] [wise_account] []) (no_accounts false)
                   "BE00" "EUR" (start [] [])))).
  vm_compute. reflexivity.
Defined.

Lemma listed_account_is_resolved_witness :
  exists self s1 a i self' s2,
    Accounts.__init__ (server [] [wise_account] []) true (start [] [])
    = (Ret self, s1)
    /\ Accounts.get_or_create_account_id (server [] [wise_account] []) self
         "BE00" "EUR" s1
       = (Ret (i, self'), s2)
    /\ In a [wise_account]
    /\ answers_to (Accounts._generate_account_name "BE00" "EUR") a
    /\ Accounts.truthy_id a = Some i
    /\ calls (trace s2) = calls (trace (start [] [])) ++ [GetCheckAccounts None].
Proof.
  apply (@listed_account_is_resolved (list Z) (server [] [wise_account] [])
           true "BE00" "EUR" (start [] []) [wise_account]).
  - reflexivity.
  - exists wise_account. split; [now left|].
    repeat split; try reflexivity; discriminate.
Defined.

Lemma missing_account_is_created_witness :
  exists self' s',
    Accounts.get_or_create_account_id creating (no_accounts false)
      "BE00" "EUR" (start [] [])
    = (Ret (11, self'), s')
    /\ world s'
       = fst (create_check_account creating
                (fst (get_check_accounts creating (world (start [] []))
                        (Some (Accounts._generate_account_name "BE00" "EUR"))))
                (Accounts._generate_account_name "BE00" "EUR")
                (Accounts.upper "EUR") "BE00")
    /\ calls (trace s')
       = calls (trace (start [] []))
         ++ [GetCheckAccounts (Some (Accounts._generate_account_name "BE00" "EUR"));
             CreateCheckAccount (Accounts._generate_account_name "BE00" "EUR")
               (Accounts.upper "EUR") "BE00"].
Proof.
  apply (@missing_account_is_created (list Z) creating (no_accounts false)
           "BE00" "EUR" (start [] []) wise_account 11).
  - reflexivity.
  - reflexivity.
  - reflexivity.
  - intros w name. simpl. intros a [].
  - reflexivity.
  - reflexivity.
Defined.

Lemma failed_creation_exits_witness :
  exists s' r,
    Accounts.get_or_create_account_id (ledger [] [] []) (no_accounts false)
      "BE00" "EUR" (start [] [])
    = (Exit 1, s')
    /\ calls (trace s')
       = calls (trace (start [] []))
         ++ [GetCheckAccounts (Some (Accounts._generate_account_name "BE00" "EUR"));
             CreateCheckAccount (Accounts._generate_account_name "BE00" "EUR")
               (Accounts.upper "EUR") "BE00"]
    /\ exists head, trace s' = trace (start [] []) ++ head ++ [Err (MError r)].
Proof.
  apply (@failed_creation_exits (list Z) (ledger [] [] []) (no_accounts false)
           "BE00" "EUR" (start [] [])).
  - reflexivity.
  - reflexivity.
  - reflexivity.
  - intros w name. simpl. intros a [].
  - simpl. exact I.
Defined.

Lemma lookup_exception_is_not_caught_witness :
  exists s',
    Accounts.get_or_create_account_id raising (no_accounts true)
      "BE00" "EUR" (start [] [])
    = (Uncaught, s')
    /\ calls (trace s')
       = calls (trace (start [] []))
         ++ [GetCheckAccounts (Some (Accounts._generate_account_name "BE00" "EUR"))].
Proof.
  apply (@lookup_exception_is_not_caught (list Z) raising (no_accounts true)
           "BE00" "EUR" (start [] [])); reflexivity.
Defined.

Lemma failed_listing_exits_witness :
  exists s',
    main IsoDate.parse raising run_args 2 (start [] [])
    = (Exit 1, s')
    /\ trace s'
       = trace (start [] [])
         ++ [Out MFetchingAccounts; Call (GetCheckAccounts None);
             Err (MError LoadFailed)].
Proof.
  apply (@failed_listing_exits (list Z) raising IsoDate.parse run_args 2
           (start [] [])).
  reflexivity.
Defined.

Lemma simulation_never_mutates_witness :
  filter mutating
    (calls (trace (snd (main IsoDate.parse (server [] [wise_account] coffees)
                          dry_args 2 (start [3; 4] ["y"])))))
  = filter mutating (calls (trace (start [3; 4] ["y"]))).
Proof.
  apply (@simulation_never_mutates IsoDate.parse (list Z)
           (server [] [wise_account] coffees) dry_args 2 (start [3; 4] ["y"])).
  reflexivity.
Defined.

Lemma nan_amount_is_alone_witness :
  is_keyed IsoDate.parse not_a_number = true
  /\ forall k g,
       In (k, g) (groups_of [not_a_number; not_a_number]) -> ~ In not_a_number g.
Proof.
  apply (@nan_amount_is_alone IsoDate.parse [not_a_number; not_a_number]
           not_a_number day).
  vm_compute. reflexivity.
Defined.

Lemma plan_has_no_repetition_witness : NoDup (plan_of three_coffees).
Proof.
  apply (@plan_has_no_repetition IsoDate.parse three_coffees).
  vm_compute. repeat constructor; simpl; intuition discriminate.
Defined.

Lemma card_rule_looks_anywhere_witness : card_rule memo = true.
Proof.
  apply (@card_rule_looks_anywhere (card 100) memo (text "Ref 7: ")
           (text ", thanks")).
  - reflexivity.
  - vm_compute. reflexivity.
Defined.

Lemma empty_plan_asks_nothing_witness :
  exists report,
    reconcile IsoDate.parse (ledger [] [] []) false [rent 100; coffee 3 100]
      (start [2; 3] ["y"])
    = (Ret tt,
       {| world := world (start [2; 3] ["y"]);
          trace := trace (start [2; 3] ["y"]) ++ report ++ [Out MNothingMarked];
          stdin := stdin (start [2; 3] ["y"]) |})
    /\ calls report = [].
Proof.
  apply (@empty_plan_asks_nothing IsoDate.parse (list Z) (ledger [] [] []) false
           [rent 100; coffee 3 100] (start [2; 3] ["y"])).
  vm_compute. reflexivity.
Defined.


Lemma skips_are_logged_witness :
  skip_line IsoDate.parse no_date = [Err (MSkipMissing (Some 9))]
  /\ skip_line IsoDate.parse unset_amount
     = [Err (MSkipUnparsable None (Tx.entry_date unset_amount)
               (Tx.amount unset_amount))]
  /\ skip_line IsoDate.parse separator_amount
     = [Err (MSkipUnparsable (Some 14) (Tx.entry_date separator_amount)
               (Tx.amount separator_amount))]
  /\ skip_line IsoDate.parse arabic_amount = [].
Proof.
  destruct (skips_are_logged IsoDate.parse [])
    as (_ & _ & Hmissing & Hparsing & Hgrouped).
  split; [|split; [|split]].
  - apply (Hmissing no_date). left. reflexivity.
  - apply (Hparsing unset_amount); [reflexivity|reflexivity|].
    right. vm_compute. reflexivity.
  - apply (Hparsing separator_amount); [reflexivity|reflexivity|].
    right. vm_compute. reflexivity.
  - apply (Hgrouped arabic_amount). vm_compute. reflexivity.
Defined.

End Examples.
